(* ===== verification/_CoqProject ===== *)
-Q . S2P
Prelude.v
Js.v
Json.v
Storage.v
Async.v
Api.v
AuthService.v
ProtectedRoute.v
App.v
LoanService.v
ErrorContract.v
Session.v
Progress.v
Profile.v
Refinement.v
