(* ===== verification/Prelude.v ===== *)
(** * Verification of the Loan_App_Frontend session and access-control core

    ** The program

    The front end is a React single-page application.  Its logic lives in
    four files under [src/src]:
    - [services/authService.js]: [registerUser] and [loginUser] (POST to
      the backend through the shared axios instance [api]; on a login
      response with a truthy [token] they store the token under ["token"]
      and [JSON.stringify(user)] under ["user"] in [localStorage]),
      [logoutUser] (removes both keys), [getCurrentUser] ([JSON.parse] of
      ["user"], or [null]) and [isAuthenticated] ([!!] the stored token).
      Every async function catches the axios error and rethrows
      [error.response?.data || { message: <fallback> }].
    - [services/loanService.js]: [submitLoanApplication] (POST
      /loans/apply), [getUserLoans] (GET /loans/my-loans) and [getLoanDetails]
      (GET /loans/${loanId}), with the same catch clause.
    - [components/ProtectedRoute.jsx]: renders its children when
      [isAuthenticated()] holds, and [<Navigate to="/login" replace/>]
      otherwise.
    - [App.jsx]: the route table [/], [/login], [/register] and the
      guarded [/loan-form].
    The axios instance [services/api.js] (request interceptor adding
    [Authorization: Bearer <token>]) is imported but not in the
    repository; it is modelled from the design document.

    ** The files

    - [Prelude] (this file): completion records ([Normal]/[Throw]) as a
      monad, string lemmas, the hint databases [loanapp] and [js_simpl],
      the tactics [simp_completion] and [invc].
    - [Js] (Module [Js]): the JavaScript values the code touches
      ([jsval]), axios responses and the exceptions ([exn]); truthiness,
      [||], property access (TypeError on [null]/[undefined]), [ToString],
      [JSON.stringify] and a recursive-descent [JSON.parse] with fuel
      [2 * length + 1].
    - [Json] (Module [Json]): the parser's theory: the fuel is enough
      (every call consumes input or stops), the parser only returns JSON
      values, [JSON.parse (JSON.stringify v) = v] for every JSON value
      ([is_json]: no [undefined], distinct object keys), and for every
      value at all the parse of the printed text is [json_value v].
    - [Storage] (Module [Storage]): [window.localStorage] as a [gmap]
      from strings to strings, with an availability flag (SecurityError
      in private mode) and an optional quota (QuotaExceededError);
      [setItem] stores [ToString] of its argument.
    - [Async] (Module [Async]): a service call as a program [prog] over
      storage accesses, raises and [await]s of an HTTP request; [exec]
      runs it against a backend ([request -> http_result]), settling
      2xx as fulfilled and everything else as an [AxiosError]; [run]
      stops at the first [await] (used by the interleaving model).
    - [Api] (Module [Api]): the axios instance: [make_request] reads the
      token and adds the bearer header; [post] and [get].
    - [AuthService] (Module [AuthService]): the five functions of
      authService.js, statement by statement, and the catch clause
      [normalize_error].
    - [ProtectedRoute] (Module [ProtectedRoute]): [protectedRoute] and
      the React elements ([element]).
    - [App] (Module [App]): [routes], [render] (route selection under a
      matcher, then the element with its guard) and [visit] (rendering
      and following [<Navigate>], replacing the history entry when
      [replace] is set); [rr_matches] is React Router v6's matching of a
      static path (case-insensitive, trailing slashes ignored).
    - [LoanService] (Module [LoanService]): the three loan functions.
    - [ErrorContract] (Module [ErrorContract]): the design's outcome of
      a service ([service_outcome]: the body on 2xx, else the truthy
      error payload or the fallback [{ message }]) and the proof that
      [registerUser] and the loan services compute exactly that.
    - [Session] (Module [Session]): the event loop interleaving calls
      (a step relation on [sys] with its reachable states), the
      invariant that token and profile are stored and removed together,
      the orderings of logout and concurrent logins, and the session
      store interface [SessionStore] with its laws, implemented by the
      localStorage statements of authService.js.  What a step does to
      the stored items is proved once, in [Section store_relation], for
      any relation [R] that holds of read-only code, of the two writes
      of [loginUser] and of the two removals of [logoutUser]; the store
      invariants ([paired], [profile_ok]) and the abstract session
      steps of [Refinement] are its instances.
    - [Progress] (Module [Progress]): every call awaits at most once
      ([single_await]), so every waiting call settles when its response
      is delivered.
    - [Profile] (Module [Profile]): the stored profile is JSON text or
      the string "undefined", in every reachable state.
    - [Refinement] (Module [Refinement]): the abstract session store of
      the design (stay, save both, clear both) and the simulation of
      every step of the interleaved calls by one abstract transition.

    ** The theorems

    - functional behaviour of each service on every branch: login stores
      exactly the session (C1), skips storage without a token (C3),
      rejects with the normalised payload (C4, C15); registration and
      the loan services settle exactly with the design's outcome
      (C5, C26); the requests sent (C13, C14, C21, C27); registration
      and the loan services leave the storage unchanged (C12, C20);
    - round trips: login then [isAuthenticated]/[getCurrentUser] (C2),
      logout ends the session (C11);
    - access control: the guard's decision (C9); no navigation shows the
      loan form without a token, under any route matcher (C6); redirect
      with history replacement and acceptance (C7, C8); every visit
      settles (C24); the history never grows (C29); the whole routing
      is equivalent to the decision table [App.app_ref] (C31);
    - the interleaving invariant (C10) and the orderings (C22, C23);
      the bearer header of later requests follows login and logout
      (C28); every call in flight settles once its response is
      delivered (C30); [getCurrentUser] returns JSON values in every
      reachable state, but for a stored "undefined" (C32); every step
      refines the abstract session store (C33); login, guard and logout
      composed (C35); null or undefined form data rejects with the
      fallback message before any request (C36);
    - the error paths the code has: a quota error between the two writes
      leaves a token without a profile (C16); a login body without [user]
      stores the string "undefined" which [getCurrentUser] cannot parse
      (C17); an unavailable storage makes the session calls and the
      guard throw (C18, C19); a null 2xx body is reported as a failed
      login (C25); a truthy token that prints as the empty string leaves
      a profile without a session (C34).
    The theory of the JSON model ([Json]: the parser's fuel suffices, the
    round trip of [JSON.stringify] and [JSON.parse]) and the laws of the
    [SessionStore] interface are lemmas the claims above rest on.

    ** Fuel

    [JSON.parse] gets [2 * length + 1] steps: each value, array element
    and object member consumes at least one character before the next
    recursive call, and [Json.JSON_parse_fuel_enough] shows the parser
    never returns [PFuel] with that fuel.  [visit] gets 2 renders: the
    only redirect goes to [/login], which is not guarded, and C24 shows
    two are enough for every path.

    ** Not modelled

    The page components (Login, Register, LoanForm) are not in the
    repository; the backend is an arbitrary function from requests to
    outcomes; numbers are integers (the code only forwards them); strings
    are byte strings, not UTF-16; React Router's ranking of routes is
    replaced by first match in table order (the table has no overlapping
    paths); React's rendering cycle, the timing of the axios interceptor
    and request timeouts are not modelled. *)

From stdpp Require Export base list gmap strings.
From Stdlib Require Export ZArith Ascii.

(** ** Completion records

    ECMAScript evaluates every statement to a completion: a normal value or
    a thrown exception.  [completion E A] is that record, with the exception
    type [E] left open; it is a monad with stdpp's [MRet]/[MBind], so the
    builtins that may throw (property access on [null], [JSON.parse]) are
    written with [x ← c; k]. *)

Inductive completion (E A : Type) : Type :=
  | Normal (a : A)
  | Throw (e : E).
Arguments Normal {E A} a.
Arguments Throw {E A} e.

#[export] Instance completion_ret {E} : MRet (completion E) :=
  λ A a, Normal a.
#[export] Instance completion_bind {E} : MBind (completion E) :=
  λ A B f c, match c with Normal a => f a | Throw e => Throw e end.
#[export] Instance completion_fmap {E} : FMap (completion E) :=
  λ A B f c, match c with Normal a => Normal (f a) | Throw e => Throw e end.

Definition is_normal {E A} (c : completion E A) : bool :=
  match c with Normal _ => true | Throw _ => false end.

Section completion_lemmas.
Context {E : Type}.

Lemma completion_bind_normal {A B} (a : A) (f : A → completion E B) :
  (Normal a ≫= f) = f a.
Proof. reflexivity. Qed.

Lemma completion_bind_throw {A B} (e : E) (f : A → completion E B) :
  (Throw e ≫= f) = Throw e.
Proof. reflexivity. Qed.

Lemma completion_bind_assoc {A B C} (c : completion E A)
    (f : A → completion E B) (g : B → completion E C) :
  ((c ≫= f) ≫= g) = (c ≫= (λ a, f a ≫= g)).
Proof. by destruct c. Qed.

Lemma completion_bind_Normal_inv {A B} (c : completion E A)
    (f : A → completion E B) (b : B) :
  (c ≫= f) = Normal b → ∃ a, c = Normal a ∧ f a = Normal b.
Proof. destruct c; simpl; [eauto | discriminate]. Qed.
End completion_lemmas.

(** ** Strings

    The JavaScript strings of the program are modelled as Rocq strings
    (sequences of 8-bit characters).  The append lemmas below are shared by
    the printer/parser proofs of [Js]. *)

(** stdpp declares [String.append] [simpl never]: symbolic proofs rewrite
    with these two equations instead of unfolding it. *)
Lemma string_app_nil_l (s : string) : "" +:+ s = s.
Proof. reflexivity. Qed.

Lemma string_app_cons (c : Ascii.ascii) (s1 s2 : string) :
  String c s1 +:+ s2 = String c (s1 +:+ s2).
Proof. reflexivity. Qed.

Lemma string_app_assoc (s1 s2 s3 : string) :
  (s1 +:+ s2) +:+ s3 = s1 +:+ (s2 +:+ s3).
Proof. induction s1 as [|c s1 IH]; [done | by rewrite !string_app_cons, IH]. Qed.

Lemma string_app_nil_r (s : string) : s +:+ "" = s.
Proof. induction s as [|c s IH]; [done | by rewrite string_app_cons, IH]. Qed.

Lemma string_length_cons (c : Ascii.ascii) (s : string) :
  String.length (String c s) = S (String.length s).
Proof. reflexivity. Qed.

Lemma string_length_app (s1 s2 : string) :
  String.length (s1 +:+ s2) = String.length s1 + String.length s2.
Proof.
  induction s1 as [|c s1 IH]; [done | rewrite string_app_cons; simpl; rewrite IH; done].
Qed.

Lemma string_app_inj_l (p s1 s2 : string) : p +:+ s1 = p +:+ s2 → s1 = s2.
Proof.
  induction p as [|c p IH]; [done|]. rewrite !string_app_cons. intros [= H]. by apply IH.
Qed.

(** ** Automation

    [loanapp] collects the resolution lemmas and [js_simpl] the rewriting
    lemmas the component files share; [simp_completion] normalises binds of completions. *)

Create HintDb loanapp discriminated.
Create Rewrite HintDb js_simpl.
#[export] Hint Rewrite @completion_bind_normal @completion_bind_throw
  string_app_nil_l string_app_cons string_app_assoc string_app_nil_r
  string_length_app : js_simpl.

Ltac simp_completion :=
  repeat (rewrite ?completion_bind_normal, ?completion_bind_throw).

Ltac invc H := inversion H; subst; clear H.
