(* ===== verification/Js.v ===== *)
(** * JavaScript values and the builtins the services call

    The values the program handles ([jsval]), the exceptions it can throw
    ([exn]), and the ECMAScript/Web builtins its statements rely on:
    truthiness ([!!x], [if (x)], [a || b]), [ToString] (the conversion
    [localStorage.setItem] applies to its argument), property access and
    optional chaining ([o.p], [o?.p]), [JSON.stringify] and [JSON.parse].
    Numbers are integers ([Z]); strings are Rocq strings of 8-bit
    characters; objects are association lists in property order. *)

From S2P Require Import Prelude.
From Stdlib Require Import DecimalN.

Module Js.

(** ** Values *)

#[warnings="-register-all"]
Inductive jsval : Type :=
  | JUndef
  | JNull
  | JBool (b : bool)
  | JNum (n : Z)
  | JStr (s : string)
  | JArr (elems : list jsval)
  | JObj (props : list (string * jsval)).

(** Nested induction: the hypotheses on the elements of arrays and on the
    values of objects come as [Forall]. *)
Section jsval_ind.
Variable P : jsval → Prop.
Hypothesis Hundef : P JUndef.
Hypothesis Hnull : P JNull.
Hypothesis Hbool : ∀ b, P (JBool b).
Hypothesis Hnum : ∀ n, P (JNum n).
Hypothesis Hstr : ∀ s, P (JStr s).
Hypothesis Harr : ∀ l, Forall P l → P (JArr l).
Hypothesis Hobj : ∀ ps, Forall (λ kv, P kv.2) ps → P (JObj ps).

Fixpoint jsval_ind' (v : jsval) : P v :=
  match v with
  | JUndef => Hundef
  | JNull => Hnull
  | JBool b => Hbool b
  | JNum n => Hnum n
  | JStr s => Hstr s
  | JArr l =>
      Harr l ((fix go (l : list jsval) : Forall P l :=
                 match l with
                 | [] => Forall_nil_2 _
                 | x :: l' => Forall_cons_2 _ _ _ (jsval_ind' x) (go l')
                 end) l)
  | JObj ps =>
      Hobj ps ((fix go (ps : list (string * jsval)) : Forall (λ kv, P kv.2) ps :=
                  match ps with
                  | [] => Forall_nil_2 _
                  | kv :: ps' => Forall_cons_2 _ _ _ (jsval_ind' kv.2) (go ps')
                  end) ps)
  end.
End jsval_ind.

(** An axios response object: its HTTP status and its parsed body. *)
Record response : Type := mk_response { status : Z; data : jsval }.

(** The exceptions the modelled statements throw: the builtin errors, an
    axios error (with [error.response] when the server answered), and a
    plain value thrown by a [throw] statement. *)
Inductive exn : Type :=
  | TypeError
  | SyntaxError
  | SecurityError
  | QuotaExceededError
  | AxiosError (resp : option response)
  | Thrown (v : jsval).

(** ** Truthiness: [ToBoolean] *)

Definition truthy (v : jsval) : bool :=
  match v with
  | JUndef | JNull => false
  | JBool b => b
  | JNum n => negb (Z.eqb n 0)
  | JStr s => match s with EmptyString => false | _ => true end
  | JArr _ | JObj _ => true
  end.

(** [a || b]: [a] when it is truthy, [b] otherwise. *)
Definition js_or (a b : jsval) : jsval := if truthy a then a else b.

(** ** Property access

    [get_prop v k] is [v.k]: it throws a [TypeError] on [undefined] and
    [null]; on an object it is the value of the property, [undefined] when
    absent.  On the other primitives and on arrays it is [undefined]: this
    is exact for the property names the program reads, none of which is
    [length], an index or an [Object.prototype] member. *)

Fixpoint assoc_lookup (k : string) (ps : list (string * jsval)) : option jsval :=
  match ps with
  | [] => None
  | (k', x) :: ps' => if decide (k = k') then Some x else assoc_lookup k ps'
  end.

Definition get_prop (v : jsval) (k : string) : completion exn jsval :=
  match v with
  | JUndef | JNull => Throw TypeError
  | JObj ps => Normal (default JUndef (assoc_lookup k ps))
  | _ => Normal JUndef
  end.

(** [v?.k]: [undefined] when [v] is nullish, [v.k] otherwise. *)
Definition get_prop_opt (v : jsval) (k : string) : completion exn jsval :=
  match v with
  | JUndef | JNull => Normal JUndef
  | _ => get_prop v k
  end.

(** The JS object an exception denotes, as a [catch (error)] clause sees
    it: an axios error has a [response] property ([undefined] when the
    request got no answer); the builtin errors have none. *)
Definition response_obj (r : response) : jsval :=
  JObj [("data", data r); ("status", JNum (status r))].

Definition exn_value (e : exn) : jsval :=
  match e with
  | AxiosError r =>
      JObj [("message", JStr "Request failed");
            ("response", match r with Some r => response_obj r | None => JUndef end)]
  | TypeError => JObj [("name", JStr "TypeError")]
  | SyntaxError => JObj [("name", JStr "SyntaxError")]
  | SecurityError => JObj [("name", JStr "SecurityError")]
  | QuotaExceededError => JObj [("name", JStr "QuotaExceededError")]
  | Thrown v => v
  end.

(** ** [ToString] *)

Fixpoint uint_to_string (d : Decimal.uint) : string :=
  match d with
  | Decimal.Nil => ""
  | Decimal.D0 d => String "0"%char (uint_to_string d)
  | Decimal.D1 d => String "1"%char (uint_to_string d)
  | Decimal.D2 d => String "2"%char (uint_to_string d)
  | Decimal.D3 d => String "3"%char (uint_to_string d)
  | Decimal.D4 d => String "4"%char (uint_to_string d)
  | Decimal.D5 d => String "5"%char (uint_to_string d)
  | Decimal.D6 d => String "6"%char (uint_to_string d)
  | Decimal.D7 d => String "7"%char (uint_to_string d)
  | Decimal.D8 d => String "8"%char (uint_to_string d)
  | Decimal.D9 d => String "9"%char (uint_to_string d)
  end.

Definition n_to_string (n : N) : string := uint_to_string (N.to_uint n).

(** [Number::toString] on an integer (exact below 10^21, where JS switches
    to exponent notation). *)
Definition z_to_string (z : Z) : string :=
  match z with
  | Z0 => "0"
  | Zpos p => n_to_string (Npos p)
  | Zneg p => String "-"%char (n_to_string (Npos p))
  end.

Fixpoint join (sep : string) (l : list string) : string :=
  match l with
  | [] => ""
  | [x] => x
  | x :: l' => x +:+ sep +:+ join sep l'
  end.

(** [ToString]: arrays are joined with commas, their [null]/[undefined]
    elements printed as empty strings ([Array.prototype.join]); every
    plain object prints as [[object Object]]. *)
Fixpoint to_string (v : jsval) : string :=
  match v with
  | JUndef => "undefined"
  | JNull => "null"
  | JBool b => if b then "true" else "false"
  | JNum n => z_to_string n
  | JStr s => s
  | JArr l =>
      join "," (map (λ x, match x with JUndef | JNull => "" | _ => to_string x end) l)
  | JObj _ => "[object Object]"
  end.

(** ** [JSON.stringify] *)

Definition dq : Ascii.ascii := Ascii.ascii_of_nat 34.
Definition bs : Ascii.ascii := Ascii.ascii_of_nat 92.

Definition hex_digit (n : nat) : Ascii.ascii :=
  if decide (n < 10) then Ascii.ascii_of_nat (48 + n) else Ascii.ascii_of_nat (87 + n).

(** [QuoteJSONString] on one character: the short escapes, [\u00xx] for
    the other control characters, the character itself otherwise. *)
Definition escape_char (c : Ascii.ascii) : string :=
  let n := Ascii.nat_of_ascii c in
  if decide (n = 34) then String bs (String dq "")
  else if decide (n = 92) then String bs (String bs "")
  else if decide (n = 8) then String bs (String "b"%char "")
  else if decide (n = 9) then String bs (String "t"%char "")
  else if decide (n = 10) then String bs (String "n"%char "")
  else if decide (n = 12) then String bs (String "f"%char "")
  else if decide (n = 13) then String bs (String "r"%char "")
  else if decide (n < 32) then
    String bs (String "u"%char (String "0"%char (String "0"
      (String (hex_digit (n / 16)) (String (hex_digit (n mod 16)) "")))))
  else String c "".

Fixpoint escape_body (s : string) : string :=
  match s with
  | EmptyString => ""
  | String c s' => escape_char c +:+ escape_body s'
  end.

Definition quote_json (s : string) : string := String dq (escape_body s +:+ String dq "").

(** [JSON.stringify v]: [None] is the [undefined] it returns for
    [undefined]; [undefined] elements of arrays print as [null] and
    [undefined]-valued properties are left out. *)
Fixpoint stringify (v : jsval) : option string :=
  match v with
  | JUndef => None
  | JNull => Some "null"
  | JBool b => Some (if b then "true" else "false")
  | JNum n => Some (z_to_string n)
  | JStr s => Some (quote_json s)
  | JArr l => Some (String "["%char (join "," (map (λ x, default "null" (stringify x)) l) +:+ "]"))
  | JObj ps =>
      Some (String "{"%char (join "," (omap (λ kv, (λ sx, quote_json kv.1 +:+ String ":"%char sx)
                                               <$> stringify kv.2) ps) +:+ "}"))
  end.

(** [JSON.stringify v] as the value the call returns: a string, or
    [undefined] when [v] is [undefined]. *)
Definition JSON_stringify (v : jsval) : jsval :=
  match stringify v with Some s => JStr s | None => JUndef end.

(** ** [JSON.parse]

    A recursive-descent parser of the JSON grammar, [pvalue] for a value,
    [parr] for the elements of an array after [[], [pobj] for the members
    of an object after [{].  Each call consumes fuel; [PFuel] reports that
    the fuel ran out, and [JSON_parse] gives [2 * length s + 1], which
    [JSON_parse_fuel_enough] shows is never exhausted.  Outside the model:
    numbers with a fraction or an exponent, and [\u] escapes of code units
    above 255, which the parser rejects. *)

Inductive presult (A : Type) : Type :=
  | POk (a : A) (rest : string)
  | PErr
  | PFuel.
Arguments POk {A} a rest.
Arguments PErr {A}.
Arguments PFuel {A}.

Definition is_ws (c : Ascii.ascii) : bool :=
  let n := Ascii.nat_of_ascii c in (n =? 32) || (n =? 9) || (n =? 10) || (n =? 13).

Fixpoint skip_ws (s : string) : string :=
  match s with
  | String c s' => if is_ws c then skip_ws s' else s
  | EmptyString => EmptyString
  end.

Definition is_digit (c : Ascii.ascii) : bool :=
  let n := Ascii.nat_of_ascii c in (48 <=? n) && (n <=? 57).

Definition hex_value (c : Ascii.ascii) : option nat :=
  let n := Ascii.nat_of_ascii c in
  if (48 <=? n) && (n <=? 57) then Some (n - 48)
  else if (97 <=? n) && (n <=? 102) then Some (n - 87)
  else if (65 <=? n) && (n <=? 70) then Some (n - 55)
  else None.

Definition unescape_short (e : Ascii.ascii) : option Ascii.ascii :=
  let n := Ascii.nat_of_ascii e in
  if decide (n = 34) then Some dq
  else if decide (n = 92) then Some bs
  else if decide (n = 47) then Some "/"%char
  else if decide (n = 98) then Some (Ascii.ascii_of_nat 8)
  else if decide (n = 116) then Some (Ascii.ascii_of_nat 9)
  else if decide (n = 110) then Some (Ascii.ascii_of_nat 10)
  else if decide (n = 102) then Some (Ascii.ascii_of_nat 12)
  else if decide (n = 114) then Some (Ascii.ascii_of_nat 13)
  else None.

Definition cons_fst (c : Ascii.ascii) (p : string * string) : string * string :=
  (String c p.1, p.2).

(** The body of a string literal, after its opening quote: the decoded
    characters and the input after the closing quote. *)
Fixpoint pstr (s : string) : option (string * string) :=
  match s with
  | EmptyString => None
  | String c s' =>
      if decide (c = dq) then Some (EmptyString, s')
      else if decide (c = bs) then
        match s' with
        | EmptyString => None
        | String e s'' =>
            if decide (e = "u"%char) then
              match s'' with
              | String h1 (String h2 (String h3 (String h4 s3))) =>
                  match hex_value h1, hex_value h2, hex_value h3, hex_value h4 with
                  | Some a, Some b, Some c', Some d =>
                      let n := 4096 * a + 256 * b + 16 * c' + d in
                      if decide (n < 256) then cons_fst (Ascii.ascii_of_nat n) <$> pstr s3
                      else None
                  | _, _, _, _ => None
                  end
              | _ => None
              end
            else match unescape_short e with
                 | Some ch => cons_fst ch <$> pstr s''
                 | None => None
                 end
        end
      else if decide (Ascii.nat_of_ascii c < 32) then None
      else cons_fst c <$> pstr s'
  end.

Fixpoint take_digits (s : string) : string * string :=
  match s with
  | String c s' => if is_digit c then cons_fst c (take_digits s') else (EmptyString, s)
  | EmptyString => (EmptyString, EmptyString)
  end.

Definition digit_cons (c : Ascii.ascii) (u : Decimal.uint) : Decimal.uint :=
  match Ascii.nat_of_ascii c - 48 with
  | 0 => Decimal.D0 u | 1 => Decimal.D1 u | 2 => Decimal.D2 u | 3 => Decimal.D3 u
  | 4 => Decimal.D4 u | 5 => Decimal.D5 u | 6 => Decimal.D6 u | 7 => Decimal.D7 u
  | 8 => Decimal.D8 u | _ => Decimal.D9 u
  end.

Fixpoint digits_to_uint (ds : string) : Decimal.uint :=
  match ds with
  | EmptyString => Decimal.Nil
  | String c ds' => digit_cons c (digits_to_uint ds')
  end.

#[export] Instance uint_eq_decision : EqDecision Decimal.uint := Decimal.uint_eq_dec.

Definition starts_number_tail (s : string) : bool :=
  match s with
  | String c _ => bool_decide (c = "."%char ∨ c = "e"%char ∨ c = "E"%char)
  | EmptyString => false
  end.

(** An unsigned integer literal: digits without a leading zero. *)
Definition pnat (s : string) : option (N * string) :=
  let '(ds, r) := take_digits s in
  match ds with
  | EmptyString => None
  | _ =>
      let u := digits_to_uint ds in
      if decide (Decimal.unorm u = u) then
        if starts_number_tail r then None else Some (N.of_uint u, r)
      else None
  end.

Fixpoint strip_prefix (p s : string) : option string :=
  match p with
  | EmptyString => Some s
  | String c p' =>
      match s with
      | String c' s' => if decide (c = c') then strip_prefix p' s' else None
      | EmptyString => None
      end
  end.

(** [CreateDataProperty] on a fresh object: a repeated key keeps its first
    position and takes the last value. *)
Fixpoint obj_set (ps : list (string * jsval)) (k : string) (x : jsval) : list (string * jsval) :=
  match ps with
  | [] => [(k, x)]
  | (k', y) :: ps' => if decide (k = k') then (k', x) :: ps' else (k', y) :: obj_set ps' k x
  end.

Definition plit (p : string) (v : jsval) (s : string) : presult jsval :=
  match strip_prefix p s with Some r => POk v r | None => PErr end.

Definition pnum (neg : bool) (s : string) : presult jsval :=
  match pnat s with
  | Some (n, r) => POk (JNum (if neg then Z.opp (Z.of_N n) else Z.of_N n)) r
  | None => PErr
  end.

Fixpoint pvalue (fuel : nat) (s : string) : presult jsval :=
  match fuel with
  | O => PFuel
  | S f =>
      match skip_ws s with
      | EmptyString => PErr
      | String c r =>
          if decide (c = "n"%char) then plit "ull" JNull r
          else if decide (c = "t"%char) then plit "rue" (JBool true) r
          else if decide (c = "f"%char) then plit "alse" (JBool false) r
          else if decide (c = dq) then
            match pstr r with Some (x, r') => POk (JStr x) r' | None => PErr end
          else if decide (c = "["%char) then
            match skip_ws r with
            | String c' r' => if decide (c' = "]"%char) then POk (JArr []) r' else parr f r []
            | EmptyString => PErr
            end
          else if decide (c = "{"%char) then
            match skip_ws r with
            | String c' r' => if decide (c' = "}"%char) then POk (JObj []) r' else pobj f r []
            | EmptyString => PErr
            end
          else if decide (c = "-"%char) then pnum true r
          else if is_digit c then pnum false (String c r)
          else PErr
      end
  end
with parr (fuel : nat) (s : string) (acc : list jsval) : presult jsval :=
  match fuel with
  | O => PFuel
  | S f =>
      match pvalue f s with
      | POk x r =>
          match skip_ws r with
          | String c r' =>
              if decide (c = ","%char) then parr f r' (acc ++ [x])
              else if decide (c = "]"%char) then POk (JArr (acc ++ [x])) r'
              else PErr
          | EmptyString => PErr
          end
      | PErr => PErr
      | PFuel => PFuel
      end
  end
with pobj (fuel : nat) (s : string) (acc : list (string * jsval)) : presult jsval :=
  match fuel with
  | O => PFuel
  | S f =>
      match skip_ws s with
      | String c r =>
          if decide (c = dq) then
            match pstr r with
            | Some (k, r1) =>
                match skip_ws r1 with
                | String c1 r2 =>
                    if decide (c1 = ":"%char) then
                      match pvalue f r2 with
                      | POk x r3 =>
                          match skip_ws r3 with
                          | String c3 r4 =>
                              if decide (c3 = ","%char) then pobj f r4 (obj_set acc k x)
                              else if decide (c3 = "}"%char) then POk (JObj (obj_set acc k x)) r4
                              else PErr
                          | EmptyString => PErr
                          end
                      | PErr => PErr
                      | PFuel => PFuel
                      end
                    else PErr
                | EmptyString => PErr
                end
            | None => PErr
            end
          else PErr
      | EmptyString => PErr
      end
  end.

(** [JSON.parse s]: a value, then only white space; anything else throws a
    [SyntaxError]. *)
Definition JSON_parse (s : string) : completion exn jsval :=
  match pvalue (2 * String.length s + 1) s with
  | POk v r => match skip_ws r with EmptyString => Normal v | _ => Throw SyntaxError end
  | _ => Throw SyntaxError
  end.

End Js.
