(* ===== verification/Json.v ===== *)
(** * JSON round trip and parser termination

    Facts about the [Js] model of [JSON.stringify] and [JSON.parse]: the
    parser never runs out of the fuel [JSON_parse] gives it, and parsing
    what [JSON.stringify] printed gives back the value, for every value
    [JSON.parse] can produce ([is_json]); for any other value the parse
    of the printed text is [json_value v].  [getCurrentUser] relies on
    the round trip to read back the profile [loginUser] stored. *)

From S2P Require Import Prelude Js.
From Stdlib Require Import DecimalN.

Module Json.
Import Js.

(** The values [JSON.parse] produces: no [undefined] anywhere, and objects
    with pairwise distinct keys. *)
Fixpoint is_json (v : jsval) : bool :=
  match v with
  | JUndef => false
  | JArr l => forallb is_json l
  | JObj ps => bool_decide (NoDup ps.*1) && forallb (λ kv, is_json kv.2) ps
  | _ => true
  end.

(** What may follow a value in the output of [JSON.stringify]. *)
Definition delim (rest : string) : Prop :=
  match rest with
  | EmptyString => True
  | String c _ => c = ","%char ∨ c = "]"%char ∨ c = "}"%char
  end.

(** What [JSON.parse(JSON.stringify(v))] gives back, for every value:
    [None] for [undefined] (no text is printed), [undefined] elements of
    arrays read back as [null], [undefined]-valued members are left out,
    and a key printed twice keeps its last value, as the parser's
    [obj_set] does.  The parse of any printed text is this value. *)
Fixpoint json_value (v : jsval) : option jsval :=
  match v with
  | JUndef => None
  | JArr l => Some (JArr (map (λ x, default JNull (json_value x)) l))
  | JObj ps => Some (JObj (foldl (λ acc kv, obj_set acc kv.1 kv.2) []
                          (omap (λ kv, pair kv.1 <$> json_value kv.2) ps)))
  | v => Some v
  end.

(** An array element as it is printed: [undefined] prints as [null]. *)
Definition elem_norm (v : jsval) : jsval := match v with JUndef => JNull | _ => v end.

(** ** Strings *)

Lemma pstr_escape_char (c : Ascii.ascii) (rest : string) :
  pstr (escape_char c +:+ rest) = cons_fst c <$> pstr rest.
Proof. destruct c as [[] [] [] [] [] [] [] []]; reflexivity. Qed.

Lemma pstr_escape_body (s rest : string) :
  pstr (escape_body s +:+ String dq rest) = Some (s, rest).
Proof.
  induction s as [|c s IH]; [reflexivity|].
  cbn [escape_body]. rewrite string_app_assoc, pstr_escape_char, IH. reflexivity.
Qed.

Lemma pstr_quote_json (s rest : string) :
  pstr ((escape_body s +:+ String dq "") +:+ rest) = Some (s, rest).
Proof. rewrite string_app_assoc. apply pstr_escape_body. Qed.

(** ** Numbers *)

Lemma take_digits_uint (u : Decimal.uint) (rest : string) :
  delim rest → take_digits (uint_to_string u +:+ rest) = (uint_to_string u, rest).
Proof.
  intros Hd. induction u; cbn [uint_to_string];
    rewrite ?string_app_cons; cbn [take_digits];
    try (rewrite IHu; reflexivity).
  destruct rest as [|c r]; [reflexivity|].
  destruct Hd as [-> | [-> | ->]]; reflexivity.
Qed.

Lemma digits_to_uint_to_string (u : Decimal.uint) :
  digits_to_uint (uint_to_string u) = u.
Proof. induction u; cbn; rewrite ?IHu; reflexivity. Qed.

Lemma to_uint_unorm (n : N) : Decimal.unorm (N.to_uint n) = N.to_uint n.
Proof. rewrite <- DecimalN.Unsigned.to_of, DecimalN.Unsigned.of_to. reflexivity. Qed.

Lemma unorm_not_nil (u : Decimal.uint) : Decimal.unorm u ≠ Decimal.Nil.
Proof. unfold Decimal.unorm. destruct (Decimal.nzhead u); discriminate. Qed.

Lemma starts_number_tail_delim (rest : string) :
  delim rest → starts_number_tail rest = false.
Proof. destruct rest as [|c r]; [done|]. intros [-> | [-> | ->]]; reflexivity. Qed.

Lemma uint_to_string_cons (u : Decimal.uint) :
  u ≠ Decimal.Nil → ∃ c s, uint_to_string u = String c s ∧ is_digit c = true.
Proof. destruct u; [done | ..]; intros _; eauto. Qed.

Lemma pnat_n_to_string (n : N) (rest : string) :
  delim rest → pnat (n_to_string n +:+ rest) = Some (n, rest).
Proof.
  intros Hd. unfold pnat, n_to_string. rewrite take_digits_uint by done.
  pose proof (unorm_not_nil (N.to_uint n)) as Hnil. rewrite to_uint_unorm in Hnil.
  destruct (uint_to_string_cons _ Hnil) as (c & s & Hs & _).
  rewrite Hs, <- Hs, digits_to_uint_to_string, decide_True by apply to_uint_unorm.
  rewrite starts_number_tail_delim, DecimalN.Unsigned.of_to by done. reflexivity.
Qed.

(** ** Values *)

Lemma n_to_string_cons (n : N) :
  ∃ c s, n_to_string n = String c s ∧ is_digit c = true.
Proof.
  apply uint_to_string_cons. pose proof (unorm_not_nil (N.to_uint n)) as H.
  by rewrite to_uint_unorm in H.
Qed.

Lemma strip_prefix_app (p rest : string) : strip_prefix p (p +:+ rest) = Some rest.
Proof.
  induction p as [|c p IH]; [reflexivity|].
  rewrite string_app_cons. cbn [strip_prefix]. rewrite decide_True by done. exact IH.
Qed.

Lemma skip_ws_nonws (c : Ascii.ascii) (r : string) :
  is_ws c = false → skip_ws (String c r) = String c r.
Proof. intros H. cbn [skip_ws]. by rewrite H. Qed.

Lemma pvalue_digit (c : Ascii.ascii) (r : string) (f : nat) :
  is_digit c = true → pvalue (S f) (String c r) = pnum false (String c r).
Proof. destruct c as [[] [] [] [] [] [] [] []]; (discriminate || reflexivity). Qed.

Lemma pnum_n_to_string (neg : bool) (n : N) (rest : string) :
  delim rest →
  pnum neg (n_to_string n +:+ rest) = POk (JNum (if neg then Z.opp (Z.of_N n) else Z.of_N n)) rest.
Proof. intros Hd. unfold pnum. by rewrite pnat_n_to_string. Qed.

(** One step of [pvalue] on a literal, a number or a string. *)
Lemma pvalue_scalar (v : jsval) (s rest : string) (f : nat) :
  stringify v = Some s →
  (∀ l, v ≠ JArr l) → (∀ ps, v ≠ JObj ps) → delim rest →
  pvalue (S f) (s +:+ rest) = POk v rest.
Proof.
  intros Hs Ha Ho Hd.
  destruct v as [| |b|z|x|l|ps]; simpl in Hs; simplify_eq.
  - reflexivity.
  - destruct b; reflexivity.
  - destruct z as [|p|p]; cbn [z_to_string].
    + change (pnum false (n_to_string 0 +:+ rest) = POk (JNum (Z.of_N 0)) rest).
      by apply pnum_n_to_string.
    + destruct (n_to_string_cons (Npos p)) as (c & t & Ht & Hc).
      rewrite Ht, string_app_cons, pvalue_digit, <- string_app_cons, <- Ht by done.
      by apply (pnum_n_to_string false (Npos p)).
    + rewrite string_app_cons.
      change (pnum true (n_to_string (Npos p) +:+ rest) = POk (JNum (Z.opp (Z.of_N (Npos p)))) rest).
      by apply pnum_n_to_string.
  - change (match pstr ((escape_body x +:+ String dq "") +:+ rest) with
            | Some (y, r') => POk (JStr y) r' | None => PErr end = POk (JStr x) rest).
    by rewrite pstr_quote_json.
  - by destruct (Ha l).
  - by destruct (Ho ps).
Qed.

(** ** Arrays and objects *)

Definition first_char_ok (c : Ascii.ascii) : Prop :=
  is_ws c = false ∧ c ≠ "]"%char ∧ c ≠ "}"%char.

Lemma digit_first_char_ok (c : Ascii.ascii) : is_digit c = true → first_char_ok c.
Proof.
  destruct c as [[] [] [] [] [] [] [] []]; intros H; try discriminate H;
    repeat split; (reflexivity || discriminate).
Qed.

Lemma stringify_first_char (v : jsval) (s : string) :
  stringify v = Some s → ∃ c t, s = String c t ∧ first_char_ok c.
Proof.
  intros Hs. destruct v as [| |b|z|x|l|ps]; simpl in Hs; simplify_eq.
  - eexists _, _; split; [reflexivity | repeat split; discriminate].
  - destruct b; (eexists _, _; split; [reflexivity | repeat split; discriminate]).
  - destruct z as [|p|p]; cbn [z_to_string].
    + eexists _, _; split; [reflexivity | repeat split; discriminate].
    + destruct (n_to_string_cons (Npos p)) as (c & t & -> & Hc).
      eexists _, _; split; [reflexivity | by apply digit_first_char_ok].
    + eexists _, _; split; [reflexivity | repeat split; discriminate].
  - eexists _, _; split; [reflexivity | repeat split; discriminate].
  - eexists _, _; split; [reflexivity | repeat split; discriminate].
  - eexists _, _; split; [reflexivity | repeat split; discriminate].
Qed.

Lemma stringify_Some (v : jsval) : v ≠ JUndef → ∃ s, stringify v = Some s.
Proof. destruct v; [done | ..]; intros _; simpl; eauto. Qed.

Lemma is_json_not_undef (v : jsval) : is_json v = true → v ≠ JUndef.
Proof. by destruct v. Qed.

Lemma pvalue_open_arr (f : nat) (c : Ascii.ascii) (t : string) :
  first_char_ok c → pvalue (S f) (String "[" (String c t)) = parr f (String c t) [].
Proof.
  intros (H1 & H2 & H3). destruct c as [[] [] [] [] [] [] [] []];
    (reflexivity || discriminate H1 || (exfalso; by apply H2) || (exfalso; by apply H3)).
Qed.

Lemma pvalue_open_obj (f : nat) (t : string) :
  pvalue (S f) (String "{" (String dq t)) = pobj f (String dq t) [].
Proof. reflexivity. Qed.

Lemma parr_step_close (g : nat) (s : string) (x : jsval) (acc : list jsval) (rest : string) :
  pvalue g s = POk x (String "]" rest) → parr (S g) s acc = POk (JArr (acc ++ [x])) rest.
Proof. intros H. cbn [parr]. by rewrite H. Qed.

Lemma parr_step_comma (g : nat) (s : string) (x : jsval) (acc : list jsval) (r : string) :
  pvalue g s = POk x (String "," r) → parr (S g) s acc = parr g r (acc ++ [x]).
Proof. intros H. cbn [parr]. by rewrite H. Qed.

Lemma pobj_step (g : nat) (k s : string) (acc : list (string * jsval)) :
  pobj (S g) (quote_json k +:+ String ":" s) acc =
  match pvalue g s with
  | POk x r3 =>
      match skip_ws r3 with
      | String c3 r4 =>
          if decide (c3 = ","%char) then pobj g r4 (obj_set acc k x)
          else if decide (c3 = "}"%char) then POk (JObj (obj_set acc k x)) r4
          else PErr
      | EmptyString => PErr
      end
  | PErr => PErr
  | PFuel => PFuel
  end.
Proof.
  unfold quote_json. rewrite string_app_cons. cbn [pobj].
  rewrite skip_ws_nonws, decide_True, pstr_quote_json by done.
  rewrite skip_ws_nonws, decide_True by done. reflexivity.
Qed.

Lemma pobj_step_close (g : nat) (k s : string) (x : jsval) acc (rest : string) :
  pvalue g s = POk x (String "}" rest) →
  pobj (S g) (quote_json k +:+ String ":" s) acc = POk (JObj (obj_set acc k x)) rest.
Proof. intros H. by rewrite pobj_step, H. Qed.

Lemma pobj_step_comma (g : nat) (k s : string) (x : jsval) acc (r : string) :
  pvalue g s = POk x (String "," r) →
  pobj (S g) (quote_json k +:+ String ":" s) acc = pobj g r (obj_set acc k x).
Proof. intros H. by rewrite pobj_step, H. Qed.

Lemma obj_set_fresh (acc : list (string * jsval)) (k : string) (x : jsval) :
  k ∉ acc.*1 → obj_set acc k x = acc ++ [(k, x)].
Proof.
  induction acc as [|[k' y] acc IH]; intros Hk; [done|]. simpl in *.
  rewrite decide_False by set_solver. rewrite IH by set_solver. done.
Qed.

Lemma join_cons (sep a : string) (l : list string) :
  l ≠ [] → join sep (a :: l) = a +:+ sep +:+ join sep l.
Proof. destruct l; [done | reflexivity]. Qed.

Lemma delim_comma (r : string) : delim (String "," r).
Proof. by left. Qed.
Lemma delim_close_arr (r : string) : delim (String "]" r).
Proof. by right; left. Qed.
Lemma delim_close_obj (r : string) : delim (String "}" r).
Proof. by right; right. Qed.
#[local] Hint Resolve delim_comma delim_close_arr delim_close_obj : loanapp.

Ltac len_lia :=
  cbn [map] in *;
  repeat progress (rewrite ?string_length_app, ?string_length_cons in * ); lia.

(** The round-trip property of one value, at any rest and enough fuel. *)
Definition roundtrips (v : jsval) : Prop :=
  ∀ s, stringify v = Some s → is_json v = true →
  ∀ rest n, delim rest → 2 * String.length (s +:+ rest) < n →
  pvalue n (s +:+ rest) = POk v rest.

Definition elems_string (l : list jsval) : string :=
  join "," (map (λ x, default "null" (stringify x)) l).

Definition members_string (ps : list (string * jsval)) : string :=
  join "," (omap (λ kv, (λ sx, quote_json kv.1 +:+ String ":" sx) <$> stringify kv.2) ps).

Lemma parr_roundtrip (l : list jsval) :
  Forall roundtrips l → Forall (λ x, is_json x = true) l → l ≠ [] →
  ∀ acc rest g, delim rest →
  2 * String.length (elems_string l +:+ String "]" rest) + 1 < g →
  parr g (elems_string l +:+ String "]" rest) acc = POk (JArr (acc ++ l)) rest.
Proof.
  unfold elems_string.
  induction l as [|x l IH]; intros Hrt Hj Hne acc rest g Hd Hlen; [done|].
  apply Forall_cons in Hrt as [Hx Hrt]. apply Forall_cons in Hj as [Hjx Hj].
  destruct (stringify_Some x (is_json_not_undef _ Hjx)) as [sx Hsx].
  destruct g as [|g]; [lia|]. destruct l as [|y l].
  - cbn [map join] in *. rewrite Hsx in *. simpl default in *.
    apply parr_step_close, Hx; auto with loanapp. len_lia.
  - cbn [map] in *. rewrite join_cons in * by done. rewrite Hsx in *. simpl default in *.
    rewrite !string_app_assoc in *.
    rewrite (parr_step_comma _ _ x _ (join "," (map (λ x, default "null" (stringify x)) (y :: l))
                                      +:+ String "]" rest)).
    + rewrite IH by first [done | len_lia]. by rewrite <- app_assoc.
    + apply Hx; auto with loanapp. len_lia.
Qed.

Lemma omap_cons_Some {A B} (f : A → option B) (a : A) (b : B) (l : list A) :
  f a = Some b → omap f (a :: l) = b :: omap f l.
Proof. intros H. simpl. by rewrite H. Qed.

Definition member_string (kv : string * jsval) : option string :=
  (λ sx, quote_json kv.1 +:+ String ":" sx) <$> stringify kv.2.

Lemma member_string_json (kv : string * jsval) :
  is_json kv.2 = true → ∃ sx, stringify kv.2 = Some sx ∧
    member_string kv = Some (quote_json kv.1 +:+ String ":" sx).
Proof.
  intros Hj. destruct (stringify_Some _ (is_json_not_undef _ Hj)) as [sx Hsx].
  exists sx. unfold member_string. by rewrite Hsx.
Qed.

Lemma omap_member_nonempty (ps : list (string * jsval)) :
  Forall (λ kv, is_json kv.2 = true) ps → ps ≠ [] → omap member_string ps ≠ [].
Proof.
  intros Hj Hne. destruct ps as [|kv ps]; [done|]. apply Forall_cons in Hj as [Hkv _].
  destruct (member_string_json kv Hkv) as (sx & _ & Hm).
  by rewrite (omap_cons_Some _ _ _ _ Hm).
Qed.

Lemma NoDup_fst_fresh (acc ps : list (string * jsval)) (k : string) (x : jsval) :
  NoDup ((acc ++ (k, x) :: ps).*1) → k ∉ acc.*1.
Proof. rewrite fmap_app, NoDup_app. intros (_ & Hdisj & _) Hk. apply (Hdisj k Hk). set_solver. Qed.

Lemma pobj_roundtrip (ps : list (string * jsval)) :
  Forall (λ kv, roundtrips kv.2) ps → Forall (λ kv, is_json kv.2 = true) ps → ps ≠ [] →
  ∀ acc rest g, NoDup ((acc ++ ps).*1) → delim rest →
  2 * String.length (join "," (omap member_string ps) +:+ String "}" rest) + 1 < g →
  pobj g (join "," (omap member_string ps) +:+ String "}" rest) acc = POk (JObj (acc ++ ps)) rest.
Proof.
  induction ps as [|[k x] ps IH]; intros Hrt Hj Hne acc rest g Hnd Hd Hlen; [done|].
  apply Forall_cons in Hrt as [Hx Hrt]. pose proof Hj as Hj'.
  apply Forall_cons in Hj as [Hjx Hj]. simpl in Hx, Hjx.
  destruct (member_string_json (k, x) Hjx) as (sx & Hsx & Hm). simpl in Hsx, Hm.
  rewrite (omap_cons_Some _ _ _ _ Hm) in *.
  pose proof (NoDup_fst_fresh _ _ _ _ Hnd) as Hk.
  destruct g as [|g]; [lia|]. destruct (decide (ps = [])) as [->|Hps].
  - cbn [omap list_omap join] in *. rewrite !string_app_assoc in *.
    etrans; [apply pobj_step_close, Hx; auto with loanapp; len_lia|].
    by rewrite obj_set_fresh.
  - rewrite join_cons in * by (by apply omap_member_nonempty). rewrite !string_app_assoc in *.
    etrans; [apply pobj_step_comma, Hx; auto with loanapp; len_lia|].
    rewrite obj_set_fresh by done.
    rewrite IH by first [done | by rewrite <- app_assoc | len_lia].
    by rewrite <- app_assoc.
Qed.

Lemma forallb_Forall {A} (f : A → bool) (l : list A) :
  forallb f l = true → Forall (λ x, f x = true) l.
Proof. induction l as [|x l IH]; simpl; [constructor|]. rewrite andb_true_iff. intros [? ?]; auto. Qed.

Lemma join_head (sep : string) (c : Ascii.ascii) (t : string) (l : list string) :
  ∃ T, join sep (String c t :: l) = String c T.
Proof. destruct l; eexists; reflexivity. Qed.

Lemma pvalue_stringify (v : jsval) : roundtrips v.
Proof.
  induction v as [| |b|z|x|l Hl|ps Hps] using jsval_ind';
    intros s Hs Hj rest n Hd Hlen; (destruct n as [|n]; [lia|]).
  1-5: apply pvalue_scalar; done.
  - simpl in Hs. injection Hs as <-. simpl in Hj. apply forallb_Forall in Hj.
    destruct l as [|x l']; [reflexivity|].
    pose proof (Forall_inv Hj) as Hjx.
    destruct (stringify_Some x (is_json_not_undef _ Hjx)) as [sx Hsx].
    destruct (stringify_first_char x sx Hsx) as (c & t & -> & Hc).
    change (map _ (x :: l')) with (default "null" (stringify x) :: map (λ y, default "null" (stringify y)) l').
    rewrite Hsx. simpl default.
    destruct (join_head "," c t (map (λ y, default "null" (stringify y)) l')) as [T HT].
    rewrite string_app_cons, string_app_assoc, HT, string_app_cons.
    rewrite pvalue_open_arr by done. rewrite <- string_app_cons, <- HT.
    assert (Hx : default "null" (stringify x) = String c t) by (by rewrite Hsx).
    rewrite <- Hx.
    apply (parr_roundtrip (x :: l') Hl Hj); [done | done | unfold elems_string; len_lia].
  - simpl in Hs. injection Hs as <-. simpl in Hj. apply andb_true_iff in Hj as [Hnd Hj].
    apply bool_decide_eq_true in Hnd. apply forallb_Forall in Hj.
    destruct ps as [|[k x] ps']; [reflexivity|].
    pose proof (Forall_inv Hj) as Hjx.
    destruct (member_string_json (k, x) Hjx) as (sx & _ & Hm).
    change (omap _ ((k, x) :: ps')) with (omap member_string ((k, x) :: ps')) in Hlen |- *.
    assert (HM : ∃ T, join "," (omap member_string ((k, x) :: ps')) = String dq T).
    { rewrite (omap_cons_Some _ _ _ _ Hm). exact (join_head "," dq _ _). }
    destruct HM as [T HM].
    rewrite string_app_cons, string_app_assoc, HM, string_app_cons, pvalue_open_obj.
    rewrite <- string_app_cons, <- HM.
    apply (pobj_roundtrip ((k, x) :: ps') Hps Hj); [done | done | done | len_lia].
Qed.

(** [JSON.parse (String (JSON.stringify v))] gives back every value
    [JSON.parse] can produce. *)
Theorem JSON_parse_stringify (v : jsval) :
  is_json v = true → JSON_parse (to_string (JSON_stringify v)) = Normal v.
Proof.
  intros Hj. destruct (stringify_Some v (is_json_not_undef _ Hj)) as [s Hs].
  unfold JSON_stringify. rewrite Hs. cbn [to_string]. unfold JSON_parse.
  pose proof (pvalue_stringify v s Hs Hj "" (2 * String.length s + 1) I) as H.
  rewrite string_app_nil_r in H. rewrite H by lia. reflexivity.
Qed.

(** [JSON.stringify(undefined)] is [undefined], which [setItem] stores as
    the string ["undefined"]; [JSON.parse] rejects it. *)
Lemma JSON_parse_stringify_undefined :
  JSON_parse (to_string (JSON_stringify JUndef)) = Throw SyntaxError.
Proof. reflexivity. Qed.


(** ** Round trip of every value

    The same induction as [pvalue_stringify], without [is_json]: the
    parse of the printed text is [json_value v]. *)

Definition roundtrips_any (v : jsval) : Prop :=
  ∀ s w, stringify v = Some s → json_value v = Some w →
  ∀ rest n, delim rest → 2 * String.length (s +:+ rest) < n → pvalue n (s +:+ rest) = POk w rest.

Lemma undef_cases (v : jsval) : v = JUndef ∨ v ≠ JUndef.
Proof. destruct v; [left | right..]; done. Qed.

Lemma json_value_Some (v : jsval) : v ≠ JUndef → ∃ w, json_value v = Some w.
Proof. destruct v; [done | ..]; intros _; simpl; eauto. Qed.

Lemma elem_norm_stringify (x : jsval) : stringify (elem_norm x) = Some (default "null" (stringify x)).
Proof. by destruct x. Qed.

Lemma elem_norm_json_value (x : jsval) : json_value (elem_norm x) = Some (default JNull (json_value x)).
Proof. by destruct x. Qed.

Lemma roundtrips_elem_norm (x : jsval) : roundtrips_any x → roundtrips_any (elem_norm x).
Proof.
  destruct x; try done. intros _ s w Hs Hw rest n Hd Hlen. simpl in Hs, Hw. simplify_eq.
  destruct n as [|n]; [lia|]. by apply (pvalue_scalar JNull).
Qed.

Lemma parr_roundtrip_any (l : list jsval) :
  Forall roundtrips_any l → l ≠ [] →
  ∀ acc rest g, delim rest →
  2 * String.length (elems_string l +:+ String "]" rest) + 1 < g →
  parr g (elems_string l +:+ String "]" rest) acc =
  POk (JArr (acc ++ map (λ x, default JNull (json_value x)) l)) rest.
Proof.
  unfold elems_string.
  induction l as [|x l IH]; intros Hrt Hne acc rest g Hd Hlen; [done|].
  apply Forall_cons in Hrt as [Hx Hrt]. apply roundtrips_elem_norm in Hx.
  pose proof (Hx _ _ (elem_norm_stringify x) (elem_norm_json_value x)) as Hp.
  destruct g as [|g]; [lia|]. destruct l as [|y l].
  - cbn [map join] in *. apply parr_step_close, Hp; auto with loanapp. len_lia.
  - cbn [map] in *. rewrite join_cons in * by done. rewrite !string_app_assoc in *.
    rewrite (parr_step_comma _ _ (default JNull (json_value x)) _
               (join "," (map (λ x, default "null" (stringify x)) (y :: l)) +:+ String "]" rest)).
    + rewrite IH by first [done | len_lia]. by rewrite <- app_assoc.
    + apply Hp; auto with loanapp. len_lia.
Qed.

Lemma omap_cons_None {A B} (f : A → option B) (a : A) (l : list A) :
  f a = None → omap f (a :: l) = omap f l.
Proof. intros H. simpl. by rewrite H. Qed.

Definition member_value (kv : string * jsval) : option (string * jsval) :=
  pair kv.1 <$> json_value kv.2.

Lemma member_undefined (k : string) :
  member_string (k, JUndef) = None ∧ member_value (k, JUndef) = None.
Proof. done. Qed.

Lemma omap_member_nil (ps : list (string * jsval)) :
  omap member_string ps = [] → omap member_value ps = [].
Proof.
  induction ps as [|[k x] ps IH]; [done|]. destruct (undef_cases x) as [->|Hx].
  - rewrite !omap_cons_None by done. exact IH.
  - destruct (stringify_Some x Hx) as [sx Hsx]. intros H.
    rewrite (omap_cons_Some _ _ (quote_json k +:+ String ":" sx)) in H; [done|].
    unfold member_string. simpl. by rewrite Hsx.
Qed.

Lemma pobj_roundtrip_any (ps : list (string * jsval)) :
  Forall (λ kv, roundtrips_any kv.2) ps → omap member_string ps ≠ [] →
  ∀ acc rest g, delim rest →
  2 * String.length (join "," (omap member_string ps) +:+ String "}" rest) + 1 < g →
  pobj g (join "," (omap member_string ps) +:+ String "}" rest) acc =
  POk (JObj (foldl (λ acc kv, obj_set acc kv.1 kv.2) acc (omap member_value ps))) rest.
Proof.
  induction ps as [|[k x] ps IH]; intros Hrt Hne acc rest g Hd Hlen; [done|].
  apply Forall_cons in Hrt as [Hx Hrt]. simpl in Hx.
  destruct (undef_cases x) as [->|Hu].
  { rewrite !omap_cons_None in * by done. by apply IH. }
  destruct (stringify_Some x Hu) as [sx Hsx]. destruct (json_value_Some x Hu) as [wx Hwx].
  assert (Hm : member_string (k, x) = Some (quote_json k +:+ String ":" sx))
    by (unfold member_string; simpl; by rewrite Hsx).
  assert (Hv : member_value (k, x) = Some (k, wx)) by (unfold member_value; simpl; by rewrite Hwx).
  rewrite (omap_cons_Some _ _ _ _ Hm) in *. rewrite (omap_cons_Some _ _ _ _ Hv).
  destruct g as [|g]; [lia|]. destruct (decide (omap member_string ps = [])) as [Hps|Hps].
  - rewrite Hps, (omap_member_nil ps Hps) in *. cbn [join foldl] in *.
    rewrite !string_app_assoc in *. apply pobj_step_close, (Hx sx wx Hsx Hwx); auto with loanapp.
    len_lia.
  - rewrite join_cons in * by done. rewrite !string_app_assoc in *.
    etrans; [apply pobj_step_comma, (Hx sx wx Hsx Hwx); auto with loanapp; len_lia|].
    apply IH; first [done | len_lia].
Qed.

Lemma pvalue_stringify_any (v : jsval) : roundtrips_any v.
Proof.
  induction v as [| |b|z|x|l Hl|ps Hps] using jsval_ind';
    intros s w Hs Hw rest n Hd Hlen; (destruct n as [|n]; [lia|]).
  1-5: simpl in Hw; simplify_eq; by apply pvalue_scalar.
  - simpl in Hs, Hw. injection Hs as <-. injection Hw as <-.
    destruct l as [|x l']; [reflexivity|].
    pose proof (elem_norm_stringify x) as Hsx.
    destruct (stringify_first_char _ _ Hsx) as (c & t & Hct & Hc).
    change (map (λ y, default "null" (stringify y)) (x :: l'))
      with (default "null" (stringify x) :: map (λ y, default "null" (stringify y)) l').
    rewrite Hct.
    destruct (join_head "," c t (map (λ y, default "null" (stringify y)) l')) as [T HT].
    rewrite string_app_cons, string_app_assoc, HT, string_app_cons.
    rewrite pvalue_open_arr by done. rewrite <- string_app_cons, <- HT, <- Hct.
    apply (parr_roundtrip_any (x :: l') Hl); [done | done | unfold elems_string; len_lia].
  - simpl in Hs, Hw. injection Hs as <-. injection Hw as <-.
    fold (member_string) in Hlen |- *. fold member_value.
    destruct (decide (omap member_string ps = [])) as [Hnil|Hne].
    { rewrite Hnil, (omap_member_nil ps Hnil). reflexivity. }
    destruct (omap member_string ps) as [|m ms] eqn:Hms; [done|].
    assert (HM : ∃ T, join "," (m :: ms) = String dq T).
    { assert (Hm : m ∈ omap member_string ps) by (rewrite Hms; left).
      apply list_elem_of_omap in Hm as ([k x] & _ & Hm).
      unfold member_string in Hm. simpl in Hm.
      destruct (stringify x); [|done]. simpl in Hm. injection Hm as <-.
      unfold quote_json. rewrite string_app_cons. exact (join_head "," dq _ _). }
    destruct HM as [T HM].
    rewrite string_app_cons, string_app_assoc, HM, string_app_cons, pvalue_open_obj.
    rewrite <- string_app_cons, <- HM, <- Hms.
    apply (pobj_roundtrip_any ps Hps); [by rewrite Hms | done | rewrite Hms; len_lia].
Qed.

(** ** Termination of the parser

    [shorter s p]: the parse [p] of [s] did not run out of fuel, and what
    it left unread is shorter than [s]. *)
Definition shorter {A} (s : string) (p : presult A) : Prop :=
  match p with
  | POk _ r => String.length r < String.length s
  | PErr => True
  | PFuel => False
  end.

Lemma shorter_weaken {A} (s s' : string) (p : presult A) :
  String.length s ≤ String.length s' → shorter s p → shorter s' p.
Proof. destruct p; simpl; lia. Qed.

Lemma skip_ws_length (s : string) : String.length (skip_ws s) ≤ String.length s.
Proof. induction s as [|c s IH]; simpl; [lia|]. destruct (is_ws c); simpl; lia. Qed.

Lemma skip_ws_cons_length (s r : string) (c : Ascii.ascii) :
  skip_ws s = String c r → String.length r < String.length s.
Proof. intros H. pose proof (skip_ws_length s) as L. rewrite H in L. simpl in L. lia. Qed.

Lemma strip_prefix_length (p s r : string) :
  strip_prefix p s = Some r → String.length r ≤ String.length s.
Proof.
  revert s. induction p as [|c p IH]; intros s H; simpl in H; [by simplify_eq|].
  destruct s as [|c' s]; [done|]. case_decide; [|done]. apply IH in H. simpl. lia.
Qed.

Lemma pstr_length (s x r : string) :
  pstr s = Some (x, r) → String.length r < String.length s.
Proof.
  remember (String.length s) as n eqn:Hn. revert s x r Hn.
  induction n as [n IH] using lt_wf_ind. intros s x r -> H.
  destruct s as [|c s']; [done|]. cbn [pstr] in H.
  repeat case_decide; simplify_eq; simpl; try lia.
  - destruct s' as [|e s'']; [done|]. repeat case_decide; simpl.
    + destruct s'' as [|h1 [|h2 [|h3 [|h4 s3]]]]; try done.
      repeat case_match; simplify_eq; try done.
      apply fmap_Some in H as ([y r'] & E & Hxr). unfold cons_fst in Hxr. simplify_eq.
      pose proof (IH (String.length s3) ltac:(simpl; lia) _ _ _ eq_refl E). simpl in *; lia.
    + case_match; [|done]. apply fmap_Some in H as ([y r'] & E & Hxr). unfold cons_fst in Hxr. simplify_eq.
      pose proof (IH (String.length s'') ltac:(simpl; lia) _ _ _ eq_refl E). simpl in *; lia.
  - apply fmap_Some in H as ([y r'] & E & Hxr). unfold cons_fst in Hxr. simplify_eq.
    pose proof (IH (String.length s') ltac:(simpl; lia) _ _ _ eq_refl E). simpl in *; lia.
Qed.

Lemma take_digits_length (s ds r : string) :
  take_digits s = (ds, r) → String.length ds + String.length r = String.length s.
Proof.
  revert ds r. induction s as [|c s IH]; intros ds r H; simpl in H; [by simplify_eq|].
  destruct (is_digit c); [|by simplify_eq].
  destruct (take_digits s) as [ds' r'] eqn:E. unfold cons_fst in H. simplify_eq.
  simpl. rewrite <- (IH ds' r') by done. lia.
Qed.

Lemma pnum_shorter (neg : bool) (s : string) : shorter s (pnum neg s).
Proof.
  unfold pnum, pnat. destruct (take_digits s) as [ds r] eqn:E.
  apply take_digits_length in E. destruct ds as [|d ds]; [done|].
  repeat case_match; simplify_eq; simpl in *; try done; lia.
Qed.

Lemma plit_shorter (p : string) (v : jsval) (r s : string) :
  String.length r < String.length s → shorter s (plit p v r).
Proof.
  unfold plit. destruct (strip_prefix p r) eqn:E; [|done].
  apply strip_prefix_length in E. simpl. lia.
Qed.

Lemma parse_shorter (n : nat) :
  (∀ s, 2 * String.length s < n → shorter s (pvalue n s)) ∧
  (∀ s acc, 2 * String.length s + 1 < n → shorter s (parr n s acc)) ∧
  (∀ s acc, 2 * String.length s + 1 < n → shorter s (pobj n s acc)).
Proof.
  induction n as [|f (IHv & IHa & IHo)]; [split_and!; intros; lia|]. split_and!.
  - intros s Hs. cbn [pvalue]. destruct (skip_ws s) as [|c r] eqn:E; [done|].
    pose proof (skip_ws_cons_length _ _ _ E) as Hr.
    repeat case_decide; try (apply plit_shorter; lia).
    + destruct (pstr r) as [[x r']|] eqn:P; [|done]. apply pstr_length in P. simpl. lia.
    + destruct (skip_ws r) as [|c' r'] eqn:E'; [done|].
      pose proof (skip_ws_cons_length _ _ _ E'). case_decide; [simpl; lia|].
      apply (shorter_weaken r); [lia | apply IHa; lia].
    + destruct (skip_ws r) as [|c' r'] eqn:E'; [done|].
      pose proof (skip_ws_cons_length _ _ _ E'). case_decide; [simpl; lia|].
      apply (shorter_weaken r); [lia | apply IHo; lia].
    + apply (shorter_weaken r); [lia | apply pnum_shorter].
    + destruct (is_digit c); [|done].
      apply (shorter_weaken (String c r)); [simpl; lia | apply pnum_shorter].
  - intros s acc Hs. cbn [parr]. specialize (IHv s ltac:(lia)).
    destruct (pvalue f s) as [x r| |]; [|done|done]. simpl in IHv.
    destruct (skip_ws r) as [|c r'] eqn:E'; [done|].
    pose proof (skip_ws_cons_length _ _ _ E'). repeat case_decide; try done.
    + apply (shorter_weaken r'); [lia | apply IHa; lia].
    + simpl. lia.
  - intros s acc Hs. cbn [pobj]. destruct (skip_ws s) as [|c r] eqn:E; [done|].
    pose proof (skip_ws_cons_length _ _ _ E). case_decide; [|done].
    destruct (pstr r) as [[k r1]|] eqn:P; [|done]. apply pstr_length in P.
    destruct (skip_ws r1) as [|c1 r2] eqn:E1; [done|].
    pose proof (skip_ws_cons_length _ _ _ E1). case_decide; [|done].
    specialize (IHv r2 ltac:(lia)). destruct (pvalue f r2) as [x r3| |]; [|done|done].
    simpl in IHv. destruct (skip_ws r3) as [|c3 r4] eqn:E3; [done|].
    pose proof (skip_ws_cons_length _ _ _ E3). repeat case_decide; try done.
    + apply (shorter_weaken r4); [lia | apply IHo; lia].
    + simpl. lia.
Qed.

(** ** What JSON.parse returns is a JSON value

    Duplicate keys are merged by [obj_set] (the later one wins), so an
    object the parser builds has distinct keys and JSON members only. *)

Lemma obj_set_fst_elem (acc : list (string * jsval)) (k k' : string) (x : jsval) :
  k' ∈ (obj_set acc k x).*1 → k' = k ∨ k' ∈ acc.*1.
Proof.
  induction acc as [|[k0 y] acc IH]; simpl; [set_solver|].
  case_decide; simpl; [set_solver|]. rewrite !elem_of_cons. naive_solver.
Qed.

Lemma obj_set_NoDup (acc : list (string * jsval)) (k : string) (x : jsval) :
  NoDup acc.*1 → NoDup (obj_set acc k x).*1.
Proof.
  induction acc as [|[k' y] acc IH]; simpl; intros Hnd.
  - constructor; [set_solver | constructor].
  - invc Hnd. case_decide; simpl; constructor; auto.
    intros [-> | ?]%obj_set_fst_elem; auto.
Qed.

Lemma obj_set_json (acc : list (string * jsval)) (k : string) (x : jsval) :
  is_json x = true → Forall (λ kv, is_json kv.2 = true) acc →
  Forall (λ kv, is_json kv.2 = true) (obj_set acc k x).
Proof.
  intros Hx. induction 1 as [|[k' y] acc Hy Hacc IH]; simpl; [by constructor|].
  case_decide; constructor; auto.
Qed.

Lemma plit_POk (p : string) (w v : jsval) (s r : string) :
  plit p w s = POk v r → v = w.
Proof. unfold plit. destruct (strip_prefix p s); congruence. Qed.

Lemma pnum_POk (neg : bool) (s r : string) (v : jsval) :
  pnum neg s = POk v r → is_json v = true.
Proof. unfold pnum. destruct (pnat s) as [[n r']|]; intros; simplify_eq; done. Qed.

Lemma forallb_app_single (l : list jsval) (x : jsval) :
  forallb is_json l = true → is_json x = true → forallb is_json (l ++ [x]) = true.
Proof. intros. rewrite forallb_app. simpl. by apply andb_true_iff; rewrite andb_true_r. Qed.

Lemma Forall_forallb {A} (f : A → bool) (l : list A) :
  Forall (λ x, f x = true) l → forallb f l = true.
Proof. induction 1; simpl; [done|]. by apply andb_true_iff. Qed.

Lemma parse_json (n : nat) :
  (∀ s v r, pvalue n s = POk v r → is_json v = true) ∧
  (∀ s acc v r, forallb is_json acc = true → parr n s acc = POk v r → is_json v = true) ∧
  (∀ s acc v r, NoDup acc.*1 → Forall (λ kv, is_json kv.2 = true) acc →
     pobj n s acc = POk v r → is_json v = true).
Proof.
  induction n as [|f (IHv & IHa & IHo)]; [split_and!; done|]. split_and!.
  - intros s v r. cbn [pvalue]. destruct (skip_ws s) as [|c r0]; [done|].
    repeat case_decide; try (intros ->%plit_POk; done).
    + destruct (pstr r0) as [[x r']|]; [|done]. intros; by simplify_eq.
    + destruct (skip_ws r0) as [|c' r']; [done|].
      case_decide; [intros; by simplify_eq|]. by apply IHa.
    + destruct (skip_ws r0) as [|c' r']; [done|].
      case_decide; [intros; by simplify_eq|]. apply IHo; [constructor | done].
    + apply pnum_POk.
    + destruct (is_digit c); [apply pnum_POk | done].
  - intros s acc v r Hacc. cbn [parr].
    destruct (pvalue f s) as [x r0| |] eqn:Hx; [|done|done]. apply IHv in Hx.
    destruct (skip_ws r0) as [|c r']; [done|]. repeat case_decide; try done.
    + apply IHa. by apply forallb_app_single.
    + intros; simplify_eq. simpl. by apply forallb_app_single.
  - intros s acc v r Hnd Hacc. cbn [pobj]. destruct (skip_ws s) as [|c r0]; [done|].
    case_decide; [|done]. destruct (pstr r0) as [[k r1]|]; [|done].
    destruct (skip_ws r1) as [|c1 r2]; [done|]. case_decide; [|done].
    destruct (pvalue f r2) as [x r3| |] eqn:Hx; [|done|done]. apply IHv in Hx.
    destruct (skip_ws r3) as [|c3 r4]; [done|]. repeat case_decide; try done.
    + apply IHo; [by apply obj_set_NoDup | by apply obj_set_json].
    + intros; simplify_eq. simpl. apply andb_true_iff. split.
      * apply bool_decide_eq_true. by apply obj_set_NoDup.
      * apply Forall_forallb. by apply obj_set_json.
Qed.

(** The parser never runs out of the fuel [JSON_parse] gives it (2 *
    length + 1), so [JSON_parse] on any string either throws a SyntaxError
    or returns a JSON value (no undefined, distinct object keys). *)
Lemma JSON_parse_fuel_enough (s : string) :
  pvalue (2 * String.length s + 1) s ≠ PFuel ∧
  (JSON_parse s = Throw SyntaxError ∨ ∃ v, JSON_parse s = Normal v ∧ is_json v = true).
Proof.
  pose proof (proj1 (parse_shorter (2 * String.length s + 1)) s ltac:(lia)) as H.
  split; [by destruct (pvalue _ s)|]. unfold JSON_parse.
  destruct (pvalue _ s) as [v r| |] eqn:Hp; [|by left|by left].
  destruct (skip_ws r); [right | by left]. exists v. split; [done|]. by eapply (proj1 (parse_json _)).
Qed.

(** Every text [stringify] prints parses, to [json_value v]. *)
Lemma stringify_parse_text (v : jsval) (s : string) :
  stringify v = Some s →
  ∃ w, json_value v = Some w ∧ JSON_parse s = Normal w ∧ is_json w = true.
Proof.
  intros Hs. destruct (json_value_Some v) as [w Hw]; [by intros ->; simplify_eq|].
  pose proof (pvalue_stringify_any v s w Hs Hw "" (2 * String.length s + 1) I) as Hp.
  rewrite string_app_nil_r in Hp. specialize (Hp ltac:(lia)).
  exists w. split_and!; [done | unfold JSON_parse; by rewrite Hp |].
  by apply (proj1 (parse_json (2 * String.length s + 1)) s w "").
Qed.

End Json.
