(* ===== verification/Storage.v ===== *)
(** * [window.localStorage]: the durable, origin-scoped key/value store

    The Web Storage object the services use as their session store: a map
    from string keys to string values, which may be unavailable (storage
    disabled or blocked: every access throws a [SecurityError]) and which
    may have a quota (a write that would exceed it throws a
    [QuotaExceededError] and changes nothing).  [setItem] converts its
    value with [ToString], as the WebIDL [DOMString] conversion does. *)

From S2P Require Import Prelude Js.

Module Storage.
Import Js.

Record storage : Type := mk_storage {
  items : gmap string string;
  available : bool;
  quota : option nat
}.

(** Space in use: the lengths of the keys and values. *)
Definition used (m : gmap string string) : nat :=
  map_fold (λ k v acc, String.length k + String.length v + acc) 0 m.

Definition with_items (st : storage) (m : gmap string string) : storage :=
  mk_storage m (available st) (quota st).

Definition getItem (st : storage) (k : string) : completion exn (option string) :=
  if available st then Normal (items st !! k) else Throw SecurityError.

Definition setItem (st : storage) (k : string) (v : jsval) : completion exn storage :=
  if available st then
    let m := <[k := to_string v]> (items st) in
    match quota st with
    | Some q => if decide (used m ≤ q) then Normal (with_items st m) else Throw QuotaExceededError
    | None => Normal (with_items st m)
    end
  else Throw SecurityError.

Definition removeItem (st : storage) (k : string) : completion exn storage :=
  if available st then Normal (with_items st (delete k (items st))) else Throw SecurityError.

(** A storage where every access succeeds: available and without quota. *)
Definition reliable (st : storage) : Prop := available st = true ∧ quota st = None.

Definition empty_storage : storage := mk_storage ∅ true None.

(** ** Lemmas *)

Section reliable.
Context (st : storage) (Hrel : reliable st).

Lemma getItem_reliable (k : string) : getItem st k = Normal (items st !! k).
Proof. destruct Hrel as [Ha _]. unfold getItem. by rewrite Ha. Qed.

Lemma setItem_reliable (k : string) (v : jsval) :
  setItem st k v = Normal (with_items st (<[k := to_string v]> (items st))).
Proof. destruct Hrel as [Ha Hq]. unfold setItem. by rewrite Ha, Hq. Qed.

Lemma removeItem_reliable (k : string) :
  removeItem st k = Normal (with_items st (delete k (items st))).
Proof. destruct Hrel as [Ha _]. unfold removeItem. by rewrite Ha. Qed.
End reliable.

Lemma with_items_reliable (st : storage) (m : gmap string string) :
  reliable st → reliable (with_items st m).
Proof. done. Qed.

Lemma with_items_items (st : storage) (m : gmap string string) : items (with_items st m) = m.
Proof. reflexivity. Qed.

Lemma with_items_with_items (st : storage) (m m' : gmap string string) :
  with_items (with_items st m) m' = with_items st m'.
Proof. reflexivity. Qed.

Lemma getItem_unavailable (st : storage) (k : string) :
  available st = false → getItem st k = Throw SecurityError.
Proof. intros H. unfold getItem. by rewrite H. Qed.

Lemma setItem_unavailable (st : storage) (k : string) (v : jsval) :
  available st = false → setItem st k v = Throw SecurityError.
Proof. intros H. unfold setItem. by rewrite H. Qed.

Lemma removeItem_unavailable (st : storage) (k : string) :
  available st = false → removeItem st k = Throw SecurityError.
Proof. intros H. unfold removeItem. by rewrite H. Qed.

(** A write either succeeds, changing only its key, or throws and leaves
    the store as it was (the caller keeps [st]). *)
Lemma setItem_Normal (st st' : storage) (k : string) (v : jsval) :
  setItem st k v = Normal st' →
  st' = with_items st (<[k := to_string v]> (items st)).
Proof. unfold setItem. repeat case_match; congruence. Qed.

Lemma removeItem_Normal (st st' : storage) (k : string) :
  removeItem st k = Normal st' → st' = with_items st (delete k (items st)).
Proof. unfold removeItem. case_match; congruence. Qed.

#[export] Hint Resolve with_items_reliable : loanapp.

(** Make a reliable storage concrete: its availability and quota are then
    known, so storage operations compute. *)
Ltac concrete_storage Hrel st :=
  let Ha := fresh "Ha" in let Hq := fresh "Hq" in
  destruct Hrel as [Ha Hq]; destruct st as [?m ?av ?qu]; simpl in *; subst.

End Storage.
