(* ===== verification/Async.v ===== *)
(** * Async functions over the shared [localStorage]

    The services are [async] functions: they run synchronously until an
    [await] of an HTTP request, are suspended until the response (or the
    failure) arrives, and then run synchronously again.  A [prog] is such a
    computation as a tree: storage operations ([GetItem], [SetItem],
    [RemoveItem]) answered at once, [Await] points where the request is
    handed to the network, and results or thrown exceptions at the leaves.
    [p_bind] is sequencing, [p_catch] is [try { .. } catch (e) { .. }].

    [run] executes a program on the storage up to its next [Await] (the
    synchronous segment that no other code can interleave with); [exec]
    runs it to the end with a server that answers every request at once.
    The HTTP layer is axios: [settle] turns the network outcome into the
    fulfilled response or the [AxiosError] the awaited promise rejects
    with (statuses outside 2xx reject, as axios's default
    [validateStatus]). *)

From S2P Require Import Prelude Js Storage.

Module Async.
Import Js Storage.

(** ** Requests and the network *)

Inductive method := GET | POST.

#[export] Instance method_eq_dec : EqDecision method.
Proof. solve_decision. Defined.

Record request : Type := mk_request {
  req_method : method;
  req_url : string;
  req_headers : list (string * string);
  req_body : option jsval
}.

(** What the network gives back for a request: nothing (connection
    failure, timeout) or an HTTP status with its parsed body. *)
Inductive http_result :=
  | NetworkError
  | HttpResponse (status : Z) (body : jsval).

Definition settle (h : http_result) : completion exn response :=
  match h with
  | NetworkError => Throw (AxiosError None)
  | HttpResponse s b =>
      if decide (200 ≤ s < 300)%Z then Normal (mk_response s b)
      else Throw (AxiosError (Some (mk_response s b)))
  end.

(** ** Programs *)

Inductive prog (A : Type) : Type :=
  | Ret (a : A)
  | Raise (e : exn)
  | GetItem (k : string) (c : completion exn (option string) → prog A)
  | SetItem (k : string) (v : jsval) (c : completion exn unit → prog A)
  | RemoveItem (k : string) (c : completion exn unit → prog A)
  | Await (req : request) (c : completion exn response → prog A).
Arguments Ret {A} a.
Arguments Raise {A} e.
Arguments GetItem {A} k c.
Arguments SetItem {A} k v c.
Arguments RemoveItem {A} k c.
Arguments Await {A} req c.

Fixpoint p_bind {A B} (p : prog A) (f : A → prog B) : prog B :=
  match p with
  | Ret a => f a
  | Raise e => Raise e
  | GetItem k c => GetItem k (λ r, p_bind (c r) f)
  | SetItem k v c => SetItem k v (λ r, p_bind (c r) f)
  | RemoveItem k c => RemoveItem k (λ r, p_bind (c r) f)
  | Await q c => Await q (λ r, p_bind (c r) f)
  end.

#[export] Instance prog_ret : MRet prog := λ A a, Ret a.
#[export] Instance prog_bind : MBind prog := λ A B f p, p_bind p f.

(** [try { p } catch (e) { h e }]: the handler sees every exception [p]
    raises, those of its storage operations and awaits included. *)
Fixpoint p_catch {A} (p : prog A) (h : exn → prog A) : prog A :=
  match p with
  | Ret a => Ret a
  | Raise e => h e
  | GetItem k c => GetItem k (λ r, p_catch (c r) h)
  | SetItem k v c => SetItem k v (λ r, p_catch (c r) h)
  | RemoveItem k c => RemoveItem k (λ r, p_catch (c r) h)
  | Await q c => Await q (λ r, p_catch (c r) h)
  end.

Definition of_completion {A} (c : completion exn A) : prog A :=
  match c with Normal a => Ret a | Throw e => Raise e end.

(** The statements: each rethrows the exception of its operation. *)
Definition getItem (k : string) : prog (option string) := GetItem k of_completion.
Definition setItem (k : string) (v : jsval) : prog unit := SetItem k v of_completion.
Definition removeItem (k : string) : prog unit := RemoveItem k of_completion.
Definition await (q : request) : prog response := Await q of_completion.

(** [o.k] as a statement: throws the [TypeError] of a nullish [o]. *)
Definition prop (v : jsval) (k : string) : prog jsval := of_completion (get_prop v k).

(** ** Execution *)

(** Where a synchronous segment stops: the async function has settled its
    promise, or it waits for the response to a request. *)
Inductive status (A : Type) : Type :=
  | Settled (o : completion exn A)
  | Pending (req : request) (k : completion exn response → prog A).
Arguments Settled {A} o.
Arguments Pending {A} req k.

Fixpoint run {A} (p : prog A) (st : storage) : status A * storage :=
  match p with
  | Ret a => (Settled (Normal a), st)
  | Raise e => (Settled (Throw e), st)
  | GetItem k c => run (c (Storage.getItem st k)) st
  | SetItem k v c =>
      match Storage.setItem st k v with
      | Normal st' => run (c (Normal tt)) st'
      | Throw e => run (c (Throw e)) st
      end
  | RemoveItem k c =>
      match Storage.removeItem st k with
      | Normal st' => run (c (Normal tt)) st'
      | Throw e => run (c (Throw e)) st
      end
  | Await q c => (Pending q c, st)
  end.

Section exec.
(** The network, answering each request. *)
Variable server : request → http_result.

Fixpoint exec {A} (p : prog A) (st : storage) : completion exn A * storage :=
  match p with
  | Ret a => (Normal a, st)
  | Raise e => (Throw e, st)
  | GetItem k c => exec (c (Storage.getItem st k)) st
  | SetItem k v c =>
      match Storage.setItem st k v with
      | Normal st' => exec (c (Normal tt)) st'
      | Throw e => exec (c (Throw e)) st
      end
  | RemoveItem k c =>
      match Storage.removeItem st k with
      | Normal st' => exec (c (Normal tt)) st'
      | Throw e => exec (c (Throw e)) st
      end
  | Await q c => exec (c (settle (server q))) st
  end.
End exec.

(** Programs without [Await]: synchronous code. *)
Fixpoint no_await {A} (p : prog A) : Prop :=
  match p with
  | Ret _ | Raise _ => True
  | GetItem _ c => ∀ r, no_await (c r)
  | SetItem _ _ c => ∀ r, no_await (c r)
  | RemoveItem _ c => ∀ r, no_await (c r)
  | Await _ _ => False
  end.

(** ** Lemmas *)

Section exec_lemmas.
Variable server : request → http_result.

Lemma exec_bind {A B} (p : prog A) (f : A → prog B) (st : storage) :
  exec server (p ≫= f) st =
  match exec server p st with
  | (Normal a, st') => exec server (f a) st'
  | (Throw e, st') => (Throw e, st')
  end.
Proof.
  revert st. induction p as [a|e|k c IH|k v c IH|k c IH|q c IH]; intros st; simpl; auto.
  - destruct (Storage.setItem st k v); apply IH.
  - destruct (Storage.removeItem st k); apply IH.
Qed.

Lemma exec_catch {A} (p : prog A) (h : exn → prog A) (st : storage) :
  exec server (p_catch p h) st =
  match exec server p st with
  | (Normal a, st') => (Normal a, st')
  | (Throw e, st') => exec server (h e) st'
  end.
Proof.
  revert st. induction p as [a|e|k c IH|k v c IH|k c IH|q c IH]; intros st; simpl; auto.
  - destruct (Storage.setItem st k v); apply IH.
  - destruct (Storage.removeItem st k); apply IH.
Qed.

Lemma exec_of_completion {A} (c : completion exn A) (st : storage) :
  exec server (of_completion c) st = (c, st).
Proof. by destruct c. Qed.

Lemma exec_ret {A} (a : A) (st : storage) : exec server (mret a) st = (Normal a, st).
Proof. reflexivity. Qed.

(** [exec] is [run] to the next [Await], then the answer, then on. *)
Lemma exec_run {A} (p : prog A) (st : storage) :
  exec server p st =
  match run p st with
  | (Settled o, st') => (o, st')
  | (Pending q k, st') => exec server (k (settle (server q))) st'
  end.
Proof.
  revert st. induction p as [a|e|k c IH|k v c IH|k c IH|q c IH]; intros st; simpl; auto.
  - destruct (Storage.setItem st k v); apply IH.
  - destruct (Storage.removeItem st k); apply IH.
Qed.
End exec_lemmas.

Lemma run_bind {A B} (p : prog A) (f : A → prog B) (st : storage) :
  run (p ≫= f) st =
  match run p st with
  | (Settled (Normal a), st') => run (f a) st'
  | (Settled (Throw e), st') => (Settled (Throw e), st')
  | (Pending q k, st') => (Pending q (λ r, k r ≫= f), st')
  end.
Proof.
  revert st. induction p as [a|e|k c IH|k v c IH|k c IH|q c IH]; intros st; simpl; auto.
  - destruct (Storage.setItem st k v); apply IH.
  - destruct (Storage.removeItem st k); apply IH.
Qed.

Lemma run_catch {A} (p : prog A) (h : exn → prog A) (st : storage) :
  run (p_catch p h) st =
  match run p st with
  | (Settled (Normal a), st') => (Settled (Normal a), st')
  | (Settled (Throw e), st') => run (h e) st'
  | (Pending q k, st') => (Pending q (λ r, p_catch (k r) h), st')
  end.
Proof.
  revert st. induction p as [a|e|k c IH|k v c IH|k c IH|q c IH]; intros st; simpl; auto.
  - destruct (Storage.setItem st k v); apply IH.
  - destruct (Storage.removeItem st k); apply IH.
Qed.

Lemma run_of_completion {A} (c : completion exn A) (st : storage) :
  run (of_completion c) st = (Settled c, st).
Proof. by destruct c. Qed.

#[export] Hint Rewrite @exec_bind @exec_catch @exec_of_completion @exec_ret
  @run_bind @run_catch @run_of_completion : js_simpl.

(** ** Programs that do not write the storage *)

Fixpoint read_only {A} (p : prog A) : Prop :=
  match p with
  | Ret _ | Raise _ => True
  | GetItem _ c => ∀ r, read_only (c r)
  | SetItem _ _ _ | RemoveItem _ _ => False
  | Await _ c => ∀ r, read_only (c r)
  end.

Lemma read_only_bind {A B} (p : prog A) (f : A → prog B) :
  read_only p → (∀ a, read_only (f a)) → read_only (p ≫= f).
Proof. induction p; simpl; auto. Qed.

Lemma read_only_catch {A} (p : prog A) (h : exn → prog A) :
  read_only p → (∀ e, read_only (h e)) → read_only (p_catch p h).
Proof. induction p; simpl; auto. Qed.

Lemma read_only_of_completion {A} (c : completion exn A) : read_only (of_completion c).
Proof. by destruct c. Qed.

Lemma read_only_ret {A} (a : A) : read_only (mret a).
Proof. done. Qed.

Lemma read_only_raise {A} (e : exn) : read_only (Raise (A:=A) e).
Proof. done. Qed.

Lemma read_only_getItem (k : string) : read_only (getItem k).
Proof. intros r. apply read_only_of_completion. Qed.

Lemma read_only_await (q : request) : read_only (await q).
Proof. intros r. apply read_only_of_completion. Qed.

Lemma read_only_prop (v : jsval) (k : string) : read_only (prop v k).
Proof. apply read_only_of_completion. Qed.

#[export] Hint Resolve read_only_bind read_only_catch read_only_of_completion read_only_ret
  read_only_raise read_only_getItem read_only_await read_only_prop : loanapp.

Lemma exec_read_only (server : request → http_result) {A} (p : prog A) (st : storage) :
  read_only p → (exec server p st).2 = st.
Proof. revert st. induction p; simpl; intros st Hp; try done; auto. Qed.

Lemma run_read_only {A} (p : prog A) (st : storage) :
  read_only p → (run p st).2 = st.
Proof. revert st. induction p; simpl; intros st Hp; try done; auto. Qed.

(** ** The network *)

Lemma settle_ok (s : Z) (b : jsval) :
  (200 ≤ s < 300)%Z → settle (HttpResponse s b) = Normal (mk_response s b).
Proof. intros H. unfold settle. by rewrite decide_True. Qed.

Lemma settle_err (s : Z) (b : jsval) :
  ¬ (200 ≤ s < 300)%Z → settle (HttpResponse s b) = Throw (AxiosError (Some (mk_response s b))).
Proof. intros H. unfold settle. by rewrite decide_False. Qed.

(** A request fails when [settle] rejects it: a network error, or a status
    outside 2xx. *)
Definition failed (h : http_result) : Prop :=
  match h with NetworkError => True | HttpResponse s _ => ¬ (200 ≤ s < 300)%Z end.

(** The payload of a failed request: the body of the error response. *)
Definition error_body (h : http_result) : jsval :=
  match h with NetworkError => JUndef | HttpResponse _ b => b end.

Lemma settle_failed (h : http_result) :
  failed h → ∃ r, settle h = Throw (AxiosError r) ∧
    match r with Some r => data r | None => JUndef end = error_body h.
Proof.
  destruct h as [|s b]; simpl; intros H; [by eexists None|].
  exists (Some (mk_response s b)). split; [by rewrite decide_False | done].
Qed.

End Async.
