(* ===== verification/Api.v ===== *)
(** * The axios instance [api] ([src/services/api.js])

    Every service sends its requests through one axios instance.  Its
    source is not part of the repository's [src/] tree, so this module is
    written from the design's contract: a request interceptor reads the
    stored token ([localStorage.getItem('token')]) when the request is
    made and, when it is present (a non-empty string), attaches it as an
    [Authorization: Bearer <token>] header, on every request without
    exception.  An exception of that read rejects the request without a
    response, like any other failure before the network. *)

From S2P Require Import Prelude Js Storage Async.

Module Api.
Import Js Storage Async.

Definition bearer (t : string) : string := "Bearer " +:+ t.

(** [localStorage.getItem] returns a string or [null]. *)
Definition stored_value (o : option string) : jsval :=
  match o with Some s => JStr s | None => JNull end.

Definition auth_headers (tok : option string) : list (string * string) :=
  match tok with
  | Some t => if truthy (JStr t) then [("Authorization", bearer t)] else []
  | None => []
  end.

(** The request interceptor. *)
Definition make_request (m : method) (url : string) (body : option jsval) : prog request :=
  tok ← getItem "token";
  mret (mk_request m url (auth_headers tok) body).

Definition post (url : string) (body : jsval) : prog response :=
  q ← make_request POST url (Some body); await q.

Definition get (url : string) : prog response :=
  q ← make_request GET url None; await q.

(** ** Lemmas *)

(** Every request sent through [api] carries [Authorization: Bearer t]
    exactly when the stored token is the non-empty string [t], and no
    other header. *)
Lemma post_sends (st : storage) (url : string) (body : jsval) :
  reliable st →
  ∃ k, run (post url body) st =
       (Pending (mk_request POST url (auth_headers (items st !! "token")) (Some body)) k, st).
Proof. intros Hrel. concrete_storage Hrel st. eexists. reflexivity. Qed.

Lemma get_sends (st : storage) (url : string) :
  reliable st →
  ∃ k, run (get url) st =
       (Pending (mk_request GET url (auth_headers (items st !! "token")) None) k, st).
Proof. intros Hrel. concrete_storage Hrel st. eexists. reflexivity. Qed.

Lemma auth_headers_spec (tok : option string) (t : string) :
  ("Authorization", bearer t) ∈ auth_headers tok ↔ tok = Some t ∧ t ≠ "".
Proof.
  destruct tok as [[|c s]|]; simpl.
  - split; [set_solver | by intros [[= <-] ?]].
  - rewrite list_elem_of_singleton. split.
    + intros [= Hb]. apply string_app_inj_l in Hb. by subst.
    + by intros [[= <-] _].
  - split; [set_solver | by intros [? _]].
Qed.

End Api.
