(* ===== verification/AuthService.v ===== *)
(** * [src/services/authService.js]: registration, login, logout, session

    Each exported function of the file is one definition: the [async]
    ones ([registerUser], [loginUser]) are programs with one [await] of
    the API client, wrapped in their [try]/[catch]; the synchronous ones
    ([logoutUser], [getCurrentUser], [isAuthenticated]) are programs
    without [await].  The catch clauses share [normalize_error], the
    statement [throw error.response?.data || { message: msg }]. *)

From S2P Require Import Prelude Js Json Storage Async Api.

Module AuthService.
Import Js Json Storage Async Api.

(** [{ message: msg }] *)
Definition message_obj (msg : string) : jsval := JObj [("message", JStr msg)].

(** [catch (error) { throw error.response?.data || { message: msg }; }] *)
Definition normalize_error {A} (msg : string) (error : exn) : prog A :=
  r ← of_completion (get_prop (exn_value error) "response");
  d ← of_completion (get_prop_opt r "data");
  Raise (Thrown (js_or d (message_obj msg))).

(** [registerUser(userData)], lines 5-17. *)
Definition registerUser (userData : jsval) : prog jsval :=
  p_catch
    (fullName ← prop userData "fullName";
     mobileNumber ← prop userData "mobileNumber";
     email ← prop userData "email";
     password ← prop userData "password";
     response ← Api.post "/auth/register"
                  (JObj [("fullName", fullName); ("mobileNumber", mobileNumber);
                         ("email", email); ("password", password)]);
     mret (data response))
    (normalize_error "Registration failed").

(** [loginUser(credentials)], lines 20-37: the token and the profile are
    stored only when [response.data.token] is truthy. *)
Definition loginUser (credentials : jsval) : prog jsval :=
  p_catch
    (email ← prop credentials "email";
     password ← prop credentials "password";
     response ← Api.post "/auth/login" (JObj [("email", email); ("password", password)]);
     token ← prop (data response) "token";
     (if truthy token then
        token' ← prop (data response) "token";
        setItem "token" token';;
        user ← prop (data response) "user";
        setItem "user" (JSON_stringify user)
      else mret ());;
     mret (data response))
    (normalize_error "Login failed").

(** [logoutUser()], lines 40-43. *)
Definition logoutUser : prog unit :=
  removeItem "token";; removeItem "user".

(** [getCurrentUser()], lines 46-49: [user ? JSON.parse(user) : null]. *)
Definition getCurrentUser : prog jsval :=
  user ← getItem "user";
  let u := stored_value user in
  if truthy u then of_completion (JSON_parse (to_string u)) else mret JNull.

(** [isAuthenticated()], lines 52-54: [!!localStorage.getItem('token')]. *)
Definition isAuthenticated : prog bool :=
  token ← getItem "token";
  mret (truthy (stored_value token)).

(** ** The requests the functions send *)

(** [v.k] of an object, [undefined] otherwise. *)
Definition field (v : jsval) (k : string) : jsval :=
  match v with JObj ps => default JUndef (assoc_lookup k ps) | _ => JUndef end.

Definition is_object (v : jsval) : Prop := match v with JObj _ => True | _ => False end.

Definition register_request (st : storage) (userData : jsval) : request :=
  mk_request POST "/auth/register" (auth_headers (items st !! "token"))
    (Some (JObj [("fullName", field userData "fullName");
                 ("mobileNumber", field userData "mobileNumber");
                 ("email", field userData "email");
                 ("password", field userData "password")])).

Definition login_request (st : storage) (credentials : jsval) : request :=
  mk_request POST "/auth/login" (auth_headers (items st !! "token"))
    (Some (JObj [("email", field credentials "email");
                 ("password", field credentials "password")])).

(** What a failed request leaves in [error.response?.data]. *)
Definition exn_payload (e : exn) : jsval :=
  match e with AxiosError (Some r) => data r | _ => JUndef end.

(** The storage after a login that received [token] and [user]. *)
Definition saved (st : storage) (token user : jsval) : storage :=
  with_items st (<["user" := to_string (JSON_stringify user)]>
                   (<["token" := to_string token]> (items st))).

(** ** Error normalisation *)

Lemma exec_normalize_error (srv : request → http_result) {A} (msg : string) (e : exn) (st : storage) :
  (∀ v, e ≠ Thrown v) →
  exec srv (normalize_error (A:=A) msg e) st =
  (Throw (Thrown (js_or (exn_payload e) (message_obj msg))), st).
Proof. intros He. destruct e as [| | | |[r|]|v]; try reflexivity. by destruct (He v). Qed.

(** ** [loginUser] *)

Section login.
Context (srv : request → http_result) (ps : list (string * jsval)) (st : storage).
Hypothesis Hrel : reliable st.

(** The request: exactly [email] and [password], with the bearer header
    of the token stored when the call is made. *)
Lemma loginUser_sends :
  ∃ k, run (loginUser (JObj ps)) st = (Pending (login_request st (JObj ps)) k, st).
Proof.
  concrete_storage Hrel st. eexists. reflexivity.
Qed.

(** C14: loginUser sends POST /auth/login with exactly email and password,
    carrying Authorization: Bearer t exactly when the stored token is the
    non-empty string t. *)
Theorem loginUser_request_spec :
  ∃ q k, run (loginUser (JObj ps)) st = (Pending q k, st) ∧
    req_url q = "/auth/login" ∧
    req_body q = Some (JObj [("email", field (JObj ps) "email");
                             ("password", field (JObj ps) "password")]) ∧
    ∀ t, ("Authorization", bearer t) ∈ req_headers q ↔ items st !! "token" = Some t ∧ t ≠ "".
Proof.
  destruct loginUser_sends as [k Hk]. exists (login_request st (JObj ps)), k.
  split_and!; [done | done | done | intros t; apply auth_headers_spec].
Qed.

Lemma loginUser_exec_ok (s : Z) (dps : list (string * jsval)) :
  srv (login_request st (JObj ps)) = HttpResponse s (JObj dps) → (200 ≤ s < 300)%Z →
  exec srv (loginUser (JObj ps)) st =
  (Normal (JObj dps),
   if truthy (field (JObj dps) "token")
   then saved st (field (JObj dps) "token") (field (JObj dps) "user") else st).
Proof.
  intros Hsrv Hs. concrete_storage Hrel st. unfold loginUser. cbn.
  unfold login_request in Hsrv. cbn in Hsrv. rewrite Hsrv, settle_ok by done. cbn.
  by destruct (truthy _).
Qed.

(** C1: loginUser, on a 2xx response whose body has a truthy token,
    fulfils with the body and stores exactly the token (ToString) under
    'token' and JSON.stringify(user) under 'user'. *)
Theorem loginUser_stores_session (s : Z) (dps : list (string * jsval)) :
  srv (login_request st (JObj ps)) = HttpResponse s (JObj dps) → (200 ≤ s < 300)%Z →
  truthy (field (JObj dps) "token") = true →
  exec srv (loginUser (JObj ps)) st =
  (Normal (JObj dps), saved st (field (JObj dps) "token") (field (JObj dps) "user")).
Proof. intros Hsrv Hs Ht. by rewrite (loginUser_exec_ok s dps), Ht. Qed.

(** C3: A 2xx login response whose token is falsy fulfils with the body
    and leaves the storage unchanged (no partial write). *)
Theorem loginUser_no_token (s : Z) (dps : list (string * jsval)) :
  srv (login_request st (JObj ps)) = HttpResponse s (JObj dps) → (200 ≤ s < 300)%Z →
  truthy (field (JObj dps) "token") = false →
  exec srv (loginUser (JObj ps)) st = (Normal (JObj dps), st).
Proof. intros Hsrv Hs Ht. by rewrite (loginUser_exec_ok s dps), Ht. Qed.

(** C4: A failed login request (network error or status outside 2xx)
    rejects with the server's error body when truthy, else with { message:
    'Login failed' }, and leaves the storage unchanged. *)
Lemma loginUser_failed :
  failed (srv (login_request st (JObj ps))) →
  exec srv (loginUser (JObj ps)) st =
  (Throw (Thrown (js_or (error_body (srv (login_request st (JObj ps))))
                        (message_obj "Login failed"))), st).
Proof.
  intros Hf.
  destruct (srv (login_request st (JObj ps))) as [|sc b] eqn:Hh; simpl in Hf |- *;
    concrete_storage Hrel st; unfold loginUser; cbn; unfold login_request in Hh; cbn in Hh; rewrite Hh;
    [reflexivity | by rewrite settle_err].
Qed.
End login.

(** ** [registerUser] *)

(** Registration never writes the storage, on every path. *)
Lemma registerUser_read_only (userData : jsval) : read_only (registerUser userData).
Proof. unfold registerUser, normalize_error, Api.post, Api.make_request. eauto 20 with loanapp. Qed.

Section register.
Context (srv : request → http_result) (ps : list (string * jsval)) (st : storage).
Hypothesis Hrel : reliable st.

(** C13: registerUser sends one POST /auth/register whose body has exactly
    fullName, mobileNumber, email and password read from its argument, and
    changes nothing before the response. *)
Lemma registerUser_sends :
  ∃ k, run (registerUser (JObj ps)) st = (Pending (register_request st (JObj ps)) k, st).
Proof. concrete_storage Hrel st. eexists. reflexivity. Qed.

(** C26: A 2xx registration response fulfils with its body and leaves the
    storage unchanged. *)
Lemma registerUser_ok (s : Z) (b : jsval) :
  srv (register_request st (JObj ps)) = HttpResponse s b → (200 ≤ s < 300)%Z →
  exec srv (registerUser (JObj ps)) st = (Normal b, st).
Proof.
  intros Hsrv Hs. concrete_storage Hrel st. unfold registerUser. cbn.
  unfold register_request in Hsrv. cbn in Hsrv. by rewrite Hsrv, settle_ok.
Qed.

(** C15: A failed registration request rejects with the server's error
    body when truthy, else with { message: 'Registration failed' },
    storage unchanged. *)
Lemma registerUser_failed :
  failed (srv (register_request st (JObj ps))) →
  exec srv (registerUser (JObj ps)) st =
  (Throw (Thrown (js_or (error_body (srv (register_request st (JObj ps))))
                        (message_obj "Registration failed"))), st).
Proof.
  intros Hf.
  destruct (srv (register_request st (JObj ps))) as [|sc b] eqn:Hh; simpl in Hf |- *;
    concrete_storage Hrel st; unfold registerUser; cbn;
    unfold register_request in Hh; cbn in Hh; rewrite Hh;
    [reflexivity | by rewrite settle_err].
Qed.
End register.

(** ** [logoutUser], [getCurrentUser], [isAuthenticated] *)

(** On any storage: the answer of [isAuthenticated], or the exception of
    the storage access. *)
Lemma isAuthenticated_exec (srv : request → http_result) (st : storage) :
  exec srv isAuthenticated st =
  (match Storage.getItem st "token" with
   | Normal t => Normal (truthy (stored_value t))
   | Throw e => Throw e
   end, st).
Proof. unfold isAuthenticated. cbn. by destruct (Storage.getItem st "token"). Qed.

Section session.
Context (srv : request → http_result) (st : storage).
Hypothesis Hrel : reliable st.

Lemma logoutUser_clears :
  exec srv logoutUser st = (Normal (), with_items st (delete "user" (delete "token" (items st)))).
Proof. concrete_storage Hrel st. reflexivity. Qed.

Lemma isAuthenticated_reads :
  exec srv isAuthenticated st = (Normal (truthy (stored_value (items st !! "token"))), st).
Proof. concrete_storage Hrel st. reflexivity. Qed.

Lemma getCurrentUser_reads :
  exec srv getCurrentUser st =
  (let u := stored_value (items st !! "user") in
   if truthy u then JSON_parse (to_string u) else Normal JNull, st).
Proof.
  concrete_storage Hrel st. unfold getCurrentUser. cbn.
  destruct (m !! "user") as [v|]; cbn; [|done].
  destruct v; [done|]. cbn. by destruct (JSON_parse _).
Qed.
End session.

(** ** Sessions across calls *)

Lemma stringify_truthy (u : jsval) :
  is_json u = true → truthy (JStr (to_string (JSON_stringify u))) = true.
Proof.
  intros Hj. destruct (stringify_Some u (is_json_not_undef _ Hj)) as [s Hs].
  destruct (stringify_first_char u s Hs) as (c & t & -> & _).
  unfold JSON_stringify. by rewrite Hs.
Qed.

Lemma saved_reliable (st : storage) (t u : jsval) : reliable st → reliable (saved st t u).
Proof. done. Qed.

Lemma saved_token (st : storage) (t u : jsval) :
  items (saved st t u) !! "token" = Some (to_string t).
Proof. unfold saved. simpl. by rewrite lookup_insert_ne, lookup_insert_eq. Qed.

Lemma saved_user (st : storage) (t u : jsval) :
  items (saved st t u) !! "user" = Some (to_string (JSON_stringify u)).
Proof. unfold saved. simpl. by rewrite lookup_insert_eq. Qed.

#[export] Hint Resolve saved_reliable : loanapp.

Section after_login.
Context (srv : request → http_result) (st : storage) (t u : jsval).
Hypothesis Hrel : reliable st.

Lemma isAuthenticated_saved :
  exec srv isAuthenticated (saved st t u) = (Normal (truthy (JStr (to_string t))), saved st t u).
Proof. rewrite isAuthenticated_reads by auto with loanapp. by rewrite saved_token. Qed.

Lemma getCurrentUser_saved :
  is_json u = true → exec srv getCurrentUser (saved st t u) = (Normal u, saved st t u).
Proof.
  intros Hj. rewrite getCurrentUser_reads by auto with loanapp. rewrite saved_user.
  cbv zeta. unfold stored_value.
  rewrite stringify_truthy by done. cbn [to_string]. by rewrite JSON_parse_stringify.
Qed.

Lemma getCurrentUser_saved_undefined :
  exec srv getCurrentUser (saved st t JUndef) = (Throw SyntaxError, saved st t JUndef).
Proof. rewrite getCurrentUser_reads by auto with loanapp. by rewrite saved_user. Qed.
End after_login.

Lemma logout_absent (st : storage) :
  items (with_items st (delete "user" (delete "token" (items st)))) !! "token" = None ∧
  items (with_items st (delete "user" (delete "token" (items st)))) !! "user" = None.
Proof. simpl. split; [by rewrite lookup_delete_ne, lookup_delete_eq | by rewrite lookup_delete_eq]. Qed.

(** ** Properties *)

Section properties.
Context (srv : request → http_result).

(** C2: After such a login, isAuthenticated() answers the truthiness of
    the stored token and getCurrentUser() returns exactly the profile the
    server sent. *)
Theorem login_session_roundtrip (st : storage) (ps dps : list (string * jsval)) (s : Z) :
  reliable st →
  srv (login_request st (JObj ps)) = HttpResponse s (JObj dps) → (200 ≤ s < 300)%Z →
  truthy (field (JObj dps) "token") = true → is_json (field (JObj dps) "user") = true →
  let st' := (exec srv (loginUser (JObj ps)) st).2 in
  (exec srv isAuthenticated st').1 = Normal (truthy (JStr (to_string (field (JObj dps) "token")))) ∧
  (exec srv getCurrentUser st').1 = Normal (field (JObj dps) "user").
Proof.
  intros Hrel Hsrv Hs Ht Hu. cbv zeta.
  rewrite (loginUser_exec_ok srv ps st Hrel s dps), Ht by done. cbn [fst snd].
  rewrite isAuthenticated_saved, getCurrentUser_saved by done. done.
Qed.

(** C11: After logoutUser(), isAuthenticated() is false and
    getCurrentUser() is null. *)
Theorem logout_ends_session (st : storage) :
  reliable st →
  let st' := (exec srv logoutUser st).2 in
  exec srv isAuthenticated st' = (Normal false, st') ∧
  exec srv getCurrentUser st' = (Normal JNull, st').
Proof.
  intros Hrel. cbv zeta. rewrite logoutUser_clears by done. cbn [fst snd].
  destruct (logout_absent st) as [Ht Hu].
  rewrite isAuthenticated_reads, getCurrentUser_reads by auto with loanapp.
  by rewrite Ht, Hu.
Qed.

(** Logging out twice is logging out once. *)
Lemma logout_twice (st : storage) :
  reliable st →
  exec srv logoutUser (exec srv logoutUser st).2 = exec srv logoutUser st.
Proof.
  intros Hrel. rewrite (logoutUser_clears srv st Hrel). cbn [fst snd].
  rewrite logoutUser_clears by auto with loanapp.
  f_equal. unfold with_items. simpl. f_equal.
  apply map_eq. intros k. rewrite !lookup_delete. by repeat case_decide.
Qed.
(** C12: registerUser never changes the storage, on any server answer and
    any storage state. *)
Theorem registerUser_keeps_storage (userData : jsval) (st : storage) :
  (exec srv (registerUser userData) st).2 = st.
Proof. apply exec_read_only, registerUser_read_only. Qed.

(** C16: Under a storage quota, a login whose token fits but whose profile
    does not is reported as 'Login failed' while the token stays stored
    without a profile. *)
Theorem loginUser_quota_partial_write (st : storage) (ps dps : list (string * jsval))
    (s : Z) (q : nat) :
  available st = true → quota st = Some q →
  srv (login_request st (JObj ps)) = HttpResponse s (JObj dps) → (200 ≤ s < 300)%Z →
  truthy (field (JObj dps) "token") = true →
  used (<["token" := to_string (field (JObj dps) "token")]> (items st)) ≤ q →
  ¬ used (items (saved st (field (JObj dps) "token") (field (JObj dps) "user"))) ≤ q →
  exec srv (loginUser (JObj ps)) st =
  (Throw (Thrown (message_obj "Login failed")),
   with_items st (<["token" := to_string (field (JObj dps) "token")]> (items st))).
Proof.
  intros Ha Hq Hsrv Hs Ht Hfit Hover. destruct st as [m av qu]; simpl in *; subst.
  unfold loginUser. cbn. unfold login_request in Hsrv. cbn in Hsrv.
  rewrite Hsrv, settle_ok by done. cbn. rewrite Ht. cbn. unfold field in Hfit, Hover.
  rewrite decide_True by done. cbn. rewrite decide_False by done. reflexivity.
Qed.
(** C17: A login response with a token but no user stores the string
    'undefined' as profile, after which getCurrentUser() throws a
    SyntaxError. *)
Theorem login_without_user_breaks_getCurrentUser (st : storage) (ps dps : list (string * jsval))
    (s : Z) :
  reliable st →
  srv (login_request st (JObj ps)) = HttpResponse s (JObj dps) → (200 ≤ s < 300)%Z →
  truthy (field (JObj dps) "token") = true → field (JObj dps) "user" = JUndef →
  let st' := (exec srv (loginUser (JObj ps)) st).2 in
  items st' !! "user" = Some "undefined" ∧
  (exec srv getCurrentUser st').1 = Throw SyntaxError.
Proof.
  intros Hrel Hsrv Hs Ht Hu. cbv zeta.
  rewrite (loginUser_exec_ok srv ps st Hrel s dps), Ht, Hu by done. cbn [fst snd].
  split; [by rewrite saved_user|]. by rewrite getCurrentUser_saved_undefined.
Qed.

(** C34: A 2xx login whose token is truthy but prints as the empty string
    (an empty array, or an array of one null) fulfils and stores the
    profile, but the stored token is empty, so isAuthenticated() is false while
    getCurrentUser() returns the profile: a profile without a session. *)
Theorem loginUser_empty_token_string (st : storage) (ps dps : list (string * jsval)) (s : Z) :
  reliable st →
  srv (login_request st (JObj ps)) = HttpResponse s (JObj dps) → (200 ≤ s < 300)%Z →
  truthy (field (JObj dps) "token") = true → to_string (field (JObj dps) "token") = "" →
  is_json (field (JObj dps) "user") = true →
  let r := exec srv (loginUser (JObj ps)) st in
  r.1 = Normal (JObj dps) ∧
  (exec srv isAuthenticated r.2).1 = Normal false ∧
  (exec srv getCurrentUser r.2).1 = Normal (field (JObj dps) "user").
Proof.
  intros Hrel Hsrv Hs Ht Hts Hj. cbv zeta.
  rewrite (loginUser_exec_ok srv ps st Hrel s dps), Ht by done. cbn [fst snd].
  rewrite isAuthenticated_saved, getCurrentUser_saved, Hts by done. done.
Qed.

(** C18: With storage unavailable, isAuthenticated(), getCurrentUser() and
    logoutUser() throw SecurityError instead of treating the session as
    absent. *)
Theorem session_calls_throw_when_unavailable (st : storage) :
  available st = false →
  exec srv isAuthenticated st = (Throw SecurityError, st) ∧
  exec srv getCurrentUser st = (Throw SecurityError, st) ∧
  exec srv logoutUser st = (Throw SecurityError, st).
Proof.
  intros Ha. destruct st as [m av qu]; simpl in *; subst. split_and!; reflexivity.
Qed.

(** C25: A 2xx login response with a null body makes response.data.token
    throw; the login rejects with 'Login failed' and the storage is
    unchanged. *)
Theorem loginUser_null_body (st : storage) (ps : list (string * jsval)) (s : Z) :
  reliable st →
  srv (login_request st (JObj ps)) = HttpResponse s JNull → (200 ≤ s < 300)%Z →
  exec srv (loginUser (JObj ps)) st = (Throw (Thrown (message_obj "Login failed")), st).
Proof.
  intros Hrel Hsrv Hs. concrete_storage Hrel st. unfold loginUser. cbn.
  unfold login_request in Hsrv. cbn in Hsrv. rewrite Hsrv, settle_ok by done. reflexivity.
Qed.
End properties.

(** ** Witnesses at concrete inputs *)

Definition demo_credentials : list (string * jsval) :=
  [("email", JStr "a@b.com"); ("password", JStr "x")].

Definition demo_user : jsval := JObj [("fullName", JStr "A")].

Definition demo_login_body : list (string * jsval) := [("token", JStr "t1"); ("user", demo_user)].

Definition demo_profile : list (string * jsval) :=
  [("fullName", JStr "A"); ("mobileNumber", JStr "9999999999");
   ("email", JStr "a@b.com"); ("password", JStr "x")].

(** A server that accepts the login and the registration. *)
Definition demo_server (q : request) : http_result :=
  if decide (req_url q = "/auth/login") then HttpResponse 200 (JObj demo_login_body)
  else if decide (req_url q = "/auth/register") then HttpResponse 201 (JObj [("message", JStr "ok")])
  else HttpResponse 404 (JObj [("message", JStr "Not found")]).

(** A server that rejects every request with a structured error. *)
Definition rejecting_server (q : request) : http_result :=
  HttpResponse 401 (JObj [("message", JStr "Invalid credentials")]).

Lemma empty_storage_reliable : reliable empty_storage.
Proof. split; reflexivity. Defined.

Lemma loginUser_stores_session_witness :
  reliable empty_storage ∧
  demo_server (login_request empty_storage (JObj demo_credentials)) = HttpResponse 200 (JObj demo_login_body) ∧
  truthy (field (JObj demo_login_body) "token") = true ∧
  exec demo_server (loginUser (JObj demo_credentials)) empty_storage =
  (Normal (JObj demo_login_body), saved empty_storage (JStr "t1") demo_user).
Proof.
  split_and!; [exact empty_storage_reliable | reflexivity | reflexivity |].
  apply (loginUser_stores_session demo_server demo_credentials empty_storage empty_storage_reliable 200);
    [reflexivity | lia | reflexivity].
Defined.

Lemma login_session_roundtrip_witness :
  let st' := (exec demo_server (loginUser (JObj demo_credentials)) empty_storage).2 in
  (exec demo_server isAuthenticated st').1 = Normal true ∧
  (exec demo_server getCurrentUser st').1 = Normal demo_user.
Proof.
  exact (login_session_roundtrip demo_server empty_storage demo_credentials demo_login_body 200
           empty_storage_reliable eq_refl ltac:(lia) eq_refl eq_refl).
Defined.

Lemma loginUser_no_token_witness :
  exec (λ _, HttpResponse 200 (JObj [("token", JStr "")])) (loginUser (JObj demo_credentials)) empty_storage =
  (Normal (JObj [("token", JStr "")]), empty_storage).
Proof.
  apply (loginUser_no_token _ demo_credentials empty_storage empty_storage_reliable 200);
    [reflexivity | lia | reflexivity].
Defined.

Lemma loginUser_failed_witness :
  exec rejecting_server (loginUser (JObj demo_credentials)) empty_storage =
  (Throw (Thrown (JObj [("message", JStr "Invalid credentials")])), empty_storage).
Proof.
  exact (loginUser_failed rejecting_server demo_credentials empty_storage empty_storage_reliable
           ltac:(simpl; lia)).
Defined.

Lemma loginUser_request_spec_witness :
  ∃ q k, run (loginUser (JObj demo_credentials)) (saved empty_storage (JStr "t1") demo_user) =
         (Pending q k, saved empty_storage (JStr "t1") demo_user) ∧
    req_url q = "/auth/login" ∧
    req_body q = Some (JObj [("email", JStr "a@b.com"); ("password", JStr "x")]) ∧
    ∀ t, ("Authorization", bearer t) ∈ req_headers q ↔
         items (saved empty_storage (JStr "t1") demo_user) !! "token" = Some t ∧ t ≠ "".
Proof.
  exact (loginUser_request_spec demo_credentials (saved empty_storage (JStr "t1") demo_user)
           (saved_reliable _ _ _ empty_storage_reliable)).
Defined.

Lemma logout_ends_session_witness :
  let st' := (exec demo_server logoutUser (saved empty_storage (JStr "t1") demo_user)).2 in
  exec demo_server isAuthenticated st' = (Normal false, st') ∧
  exec demo_server getCurrentUser st' = (Normal JNull, st').
Proof.
  exact (logout_ends_session demo_server (saved empty_storage (JStr "t1") demo_user)
           (saved_reliable _ _ _ empty_storage_reliable)).
Defined.

Lemma registerUser_sends_witness :
  ∃ k, run (registerUser (JObj demo_profile)) empty_storage =
       (Pending (register_request empty_storage (JObj demo_profile)) k, empty_storage).
Proof. exact (registerUser_sends demo_profile empty_storage empty_storage_reliable). Defined.

Lemma registerUser_ok_witness :
  exec demo_server (registerUser (JObj demo_profile)) empty_storage =
  (Normal (JObj [("message", JStr "ok")]), empty_storage).
Proof.
  apply (registerUser_ok demo_server demo_profile empty_storage empty_storage_reliable 201);
    [reflexivity | lia].
Defined.

Lemma registerUser_failed_witness :
  exec (λ _, NetworkError) (registerUser (JObj demo_profile)) empty_storage =
  (Throw (Thrown (JObj [("message", JStr "Registration failed")])), empty_storage).
Proof.
  exact (registerUser_failed (λ _, NetworkError) demo_profile empty_storage empty_storage_reliable I).
Defined.

(** A store with a 10-character quota: the token "t1" fits, the profile
    does not. *)
Definition small_storage : storage := mk_storage ∅ true (Some 10).

Lemma loginUser_quota_partial_write_witness :
  exec demo_server (loginUser (JObj demo_credentials)) small_storage =
  (Throw (Thrown (JObj [("message", JStr "Login failed")])),
   with_items small_storage (<["token" := "t1"]> ∅)).
Proof.
  apply (loginUser_quota_partial_write demo_server small_storage demo_credentials
           demo_login_body 200 10); try reflexivity; try lia; vm_compute; lia.
Defined.

Lemma login_without_user_breaks_getCurrentUser_witness :
  let srv := λ _ : request, HttpResponse 200 (JObj [("token", JStr "t1")]) in
  let st' := (exec srv (loginUser (JObj demo_credentials)) empty_storage).2 in
  items st' !! "user" = Some "undefined" ∧ (exec srv getCurrentUser st').1 = Throw SyntaxError.
Proof.
  exact (login_without_user_breaks_getCurrentUser _ empty_storage demo_credentials
           [("token", JStr "t1")] 200 empty_storage_reliable eq_refl ltac:(lia) eq_refl eq_refl).
Defined.

Lemma loginUser_empty_token_string_witness :
  let srv := λ _ : request, HttpResponse 200 (JObj [("token", JArr []); ("user", demo_user)]) in
  let r := exec srv (loginUser (JObj demo_credentials)) empty_storage in
  r.1 = Normal (JObj [("token", JArr []); ("user", demo_user)]) ∧
  (exec srv isAuthenticated r.2).1 = Normal false ∧
  (exec srv getCurrentUser r.2).1 = Normal demo_user.
Proof.
  exact (loginUser_empty_token_string _ empty_storage demo_credentials
           [("token", JArr []); ("user", demo_user)] 200 empty_storage_reliable eq_refl ltac:(lia)
           eq_refl eq_refl eq_refl).
Defined.

Lemma session_calls_throw_when_unavailable_witness :
  let st := mk_storage ∅ false None in
  exec demo_server isAuthenticated st = (Throw SecurityError, st) ∧
  exec demo_server getCurrentUser st = (Throw SecurityError, st) ∧
  exec demo_server logoutUser st = (Throw SecurityError, st).
Proof. exact (session_calls_throw_when_unavailable demo_server (mk_storage ∅ false None) eq_refl). Defined.

Lemma loginUser_null_body_witness :
  exec (λ _, HttpResponse 200 JNull) (loginUser (JObj demo_credentials)) empty_storage =
  (Throw (Thrown (JObj [("message", JStr "Login failed")])), empty_storage).
Proof.
  exact (loginUser_null_body _ empty_storage demo_credentials 200 empty_storage_reliable
           eq_refl ltac:(lia)).
Defined.

End AuthService.
