(* ===== verification/ProtectedRoute.v ===== *)
(** * [src/components/ProtectedRoute.jsx]: the route guard

    The React elements of the application ([element]) and the
    [ProtectedRoute] component: rendered with its children, it calls
    [isAuthenticated()] and returns the children, or a
    [<Navigate to="/login" replace />] element.  It keeps no state of its
    own: every render calls it again. *)

From S2P Require Import Prelude Js Storage Async Api AuthService.

Module ProtectedRoute.
Import Js Storage Async Api AuthService.

(** The elements [src/App.jsx] builds: the three pages, the redirect
    element of React Router, and a [ProtectedRoute] around its children. *)
Inductive element : Type :=
  | Login
  | Register
  | LoanForm
  | Navigate (to : string) (replace : bool)
  | Protected (children : element).

#[export] Instance element_eq_dec : EqDecision element.
Proof. solve_decision. Defined.

(** [ProtectedRoute({ children })], lines 6-13. *)
Definition protectedRoute (children : element) : prog element :=
  authenticated ← isAuthenticated;
  if negb authenticated then mret (Navigate "/login" true)
  else mret children.

(** The guard's decision as a function of the stored token. *)
Definition decision (st : storage) (children : element) : element :=
  if truthy (stored_value (items st !! "token")) then children else Navigate "/login" true.

(** C9: ProtectedRoute returns its children when the stored token is truthy
    and <Navigate to='/login' replace/> otherwise, without changing the
    storage. *)
Lemma protectedRoute_decides (srv : request → http_result) (st : storage) (children : element) :
  reliable st →
  exec srv (protectedRoute children) st = (Normal (decision st children), st).
Proof.
  intros Hrel. unfold protectedRoute, decision.
  rewrite exec_bind, isAuthenticated_reads by done.
  by destruct (truthy _).
Qed.

Lemma protectedRoute_read_only (children : element) : read_only (protectedRoute children).
Proof.
  unfold protectedRoute, isAuthenticated. apply read_only_bind; [eauto with loanapp|].
  intros []; apply read_only_ret.
Qed.

Lemma protectedRoute_decides_witness :
  exec (λ _, NetworkError) (protectedRoute LoanForm) empty_storage =
  (Normal (Navigate "/login" true), empty_storage).
Proof. exact (protectedRoute_decides (λ _, NetworkError) empty_storage LoanForm empty_storage_reliable). Defined.

End ProtectedRoute.
