(* ===== verification/App.v ===== *)
(** * [src/App.jsx]: the routes and the rendering of a location

    [App()] declares four routes; the one for [/loan-form] wraps the loan
    form in a [ProtectedRoute].  Rendering a location selects a route with
    React Router's matcher, renders its element (running the guard of a
    [ProtectedRoute]), and follows a [<Navigate replace>] by replacing the
    current history entry and rendering the new location.

    The guard theorems hold for every matcher ([Section router]); the
    concrete [rr_matches] is React Router v6's rule for these static
    paths (case-insensitive, trailing slashes ignored), used to show that
    navigation settles after at most one redirect, that the history never
    grows, and that the whole routing is the decision table [app_ref]. *)

From S2P Require Import Prelude Js Storage Async Api AuthService ProtectedRoute.

Module App.
Import Js Storage Async Api AuthService ProtectedRoute.

(** The [<Route>] children of [<Routes>], lines 14-24, in order. *)
Definition routes : list (string * element) :=
  [("/", Login); ("/login", Login); ("/register", Register); ("/loan-form", Protected LoanForm)].

(** Rendering an element: a [ProtectedRoute] runs its guard, then React
    renders what the guard returned. *)
Fixpoint render_element (e : element) : prog element :=
  match e with
  | Protected c =>
      r ← protectedRoute c;
      match r with
      | Navigate to rep => mret (Navigate to rep)
      | _ => render_element c
      end
  | e => mret e
  end.

(** What a visit ends with: the element shown ([None] when no route
    matches) and the history, current entry first; or a redirect loop
    that did not settle within the fuel. *)
Inductive visit_result : Type :=
  | Shown (e : option element) (history : list string)
  | Looping.

Section router.
(** [matches pattern pathname]: does the route path match the location? *)
Variable matches : string → string → bool.

Definition select (path : string) : option element :=
  snd <$> List.find (λ r, matches r.1 path) routes.

Definition render (path : string) : prog (option element) :=
  match select path with
  | Some e => r ← render_element e; mret (Some r)
  | None => mret None
  end.

(** Render the current entry; a [<Navigate to replace>] replaces it with
    [to] (or pushes [to] without [replace]) and renders again. *)
Fixpoint visit (fuel : nat) (history : list string) : prog visit_result :=
  match fuel with
  | O => mret Looping
  | S n =>
      r ← render (default "/" (head history));
      match r with
      | Some (Navigate to rep) => visit n (to :: if rep then tail history else history)
      | r => mret (Shown r history)
      end
  end.
End router.

(** ** React Router v6's matching of a static path *)

Definition lower (c : Ascii.ascii) : Ascii.ascii :=
  let n := Ascii.nat_of_ascii c in
  if decide (65 ≤ n ≤ 90) then Ascii.ascii_of_nat (n + 32) else c.

Fixpoint lowercase (s : string) : string :=
  match s with EmptyString => EmptyString | String c s' => String (lower c) (lowercase s') end.

Fixpoint strip_trailing_slashes (s : string) : string :=
  match s with
  | EmptyString => EmptyString
  | String c s' =>
      let r := strip_trailing_slashes s' in
      if decide (c = "/"%char) then (match r with EmptyString => EmptyString | _ => String c r end)
      else String c r
  end.

(** [matchPath({ path: pattern, end: true, caseSensitive: false }, pathname)]:
    the pattern without its trailing slashes, then any number of slashes. *)
Definition rr_matches (pattern pathname : string) : bool :=
  bool_decide (lowercase (strip_trailing_slashes pattern) =
               lowercase (strip_trailing_slashes pathname)).

(** The application's routing as a decision table, the reference for
    the table of [App()], the guard and the router together: the page
    for each location key (the path as React Router compares it), and
    for the protected page the login page at a replaced history entry
    when no session is present. *)
Definition location_key (path : string) : string := lowercase (strip_trailing_slashes path).

Definition app_ref (path : string) (authenticated : bool) (history : list string) : visit_result :=
  let key := location_key path in
  if decide (key = "" ∨ key = "/login") then Shown (Some Login) (path :: history)
  else if decide (key = "/register") then Shown (Some Register) (path :: history)
  else if decide (key = "/loan-form") then
    (if authenticated then Shown (Some LoanForm) (path :: history)
     else Shown (Some Login) ("/login" :: history))
  else Shown None (path :: history).

(** ** Lemmas *)

Definition token_present (st : storage) : bool := truthy (stored_value (items st !! "token")).

Lemma protectedRoute_exec (srv : request → http_result) (st : storage) (c : element) :
  exec srv (protectedRoute c) st =
  (if available st then Normal (if token_present st then c else Navigate "/login" true)
   else Throw SecurityError, st).
Proof.
  unfold protectedRoute. rewrite exec_bind, isAuthenticated_exec.
  unfold Storage.getItem, token_present. destruct (available st); [|done].
  by destruct (truthy (stored_value (items st !! "token"))).
Qed.

Lemma render_element_read_only (e : element) : read_only (render_element e).
Proof.
  induction e as [| | | |c IH]; try apply read_only_ret. cbn [render_element].
  apply read_only_bind; [apply protectedRoute_read_only|]. intros []; auto; apply read_only_ret.
Qed.

Lemma render_read_only (matches : string → string → bool) (path : string) :
  read_only (render matches path).
Proof.
  unfold render. destruct (select matches path); [|apply read_only_ret].
  apply read_only_bind; [apply render_element_read_only | intros; apply read_only_ret].
Qed.

Lemma select_route (matches : string → string → bool) (path : string) (e : element) :
  select matches path = Some e → e ∈ routes.*2.
Proof.
  unfold select. intros H. apply fmap_Some in H as ([p e'] & Hf & ->).
  apply find_some in Hf as [Hin _]. apply list_elem_of_In in Hin.
  apply list_elem_of_fmap. by exists (p, e').
Qed.

(** Rendering an element of the routes table shows the loan form only
    through its guard, with a token present. *)
Lemma render_route_LoanForm (srv : request → http_result) (st : storage) (e : element) :
  e ∈ routes.*2 →
  (exec srv (render_element e) st).1 = Normal LoanForm → token_present st = true.
Proof.
  intros He. simpl in He.
  repeat (apply elem_of_cons in He as [-> | He]); [done | done | done | | set_solver].
  cbn [render_element]. rewrite exec_bind, protectedRoute_exec.
  destruct (available st); [|done]. by destruct (token_present st).
Qed.

Lemma rr_select_loan_form (path : string) :
  rr_matches "/loan-form" path = true → select rr_matches path = Some (Protected LoanForm).
Proof.
  unfold rr_matches. intros H. apply bool_decide_eq_true in H.
  unfold select. cbn [List.find routes fst]. unfold rr_matches. rewrite <- H. reflexivity.
Qed.

Lemma rr_select_login : select rr_matches "/login" = Some Login.
Proof. reflexivity. Qed.

Lemma render_LoanForm (matches : string → string → bool) (srv : request → http_result)
    (st : storage) (path : string) :
  (exec srv (render matches path) st).1 = Normal (Some LoanForm) → token_present st = true.
Proof.
  unfold render. destruct (select matches path) as [e|] eqn:Hs; [|done].
  rewrite exec_bind. destruct (exec srv (render_element e) st) as [[r|ex] st'] eqn:He; [|done].
  simpl. intros [= ->]. apply (render_route_LoanForm srv st e); [by eapply select_route | by rewrite He].
Qed.

Lemma visit_unfold (matches : string → string → bool) (srv : request → http_result)
    (st : storage) (n : nat) (history : list string) :
  exec srv (visit matches (S n) history) st =
  match exec srv (render matches (default "/" (head history))) st with
  | (Normal (Some (Navigate to rep)), st') => exec srv (visit matches n (to :: if rep then tail history else history)) st'
  | (Normal r, st') => (Normal (Shown r history), st')
  | (Throw e, st') => (Throw e, st')
  end.
Proof.
  cbn [visit]. rewrite exec_bind.
  destruct (exec srv (render matches _) st) as [[[[]|]|] st']; reflexivity.
Qed.

(** ** Properties of navigation *)

(** C6: No navigation, under any route matcher, shows the loan form unless a
    truthy token is stored. *)
Theorem visit_LoanForm_requires_token (matches : string → string → bool)
    (srv : request → http_result) (n : nat) (history history' : list string) (st : storage) :
  (exec srv (visit matches n history) st).1 = Normal (Shown (Some LoanForm) history') →
  token_present st = true.
Proof.
  revert history. induction n as [|n IH]; intros history; [done|].
  rewrite visit_unfold.
  pose proof (exec_read_only srv (render matches (default "/" (head history))) st
                (render_read_only _ _)) as Hst.
  pose proof (render_LoanForm matches srv st (default "/" (head history))) as Hr.
  destruct (exec srv (render matches _) st) as [[[[]|]|] st'] eqn:He; simpl in Hst; subst st';
    simpl; intros H; simplify_eq; eauto.
Qed.

Section rr.
Context (srv : request → http_result) (st : storage) (Hrel : reliable st).

Lemma render_loan_form (path : string) :
  rr_matches "/loan-form" path = true →
  exec srv (render rr_matches path) st =
  (Normal (Some (if token_present st then LoanForm else Navigate "/login" true)), st).
Proof.
  intros Hp. unfold render. rewrite rr_select_loan_form by done.
  cbn [render_element]. rewrite !exec_bind, protectedRoute_exec.
  destruct Hrel as [-> _]. by destruct (token_present st).
Qed.

(** Visiting the protected location: the loan form, or the login page
    at the replaced entry, according to the stored token. *)
Lemma visit_loan_form (path : string) (history : list string) :
  rr_matches "/loan-form" path = true →
  exec srv (visit rr_matches 2 (path :: history)) st =
  (Normal (if token_present st then Shown (Some LoanForm) (path :: history)
           else Shown (Some Login) ("/login" :: history)), st).
Proof.
  intros Hp. rewrite visit_unfold. simpl default. rewrite render_loan_form by done.
  destruct (token_present st); [done|].
  rewrite visit_unfold. simpl default. unfold render. rewrite rr_select_login. reflexivity.
Qed.

(** C7: Without a token, visiting any spelling of /loan-form ends on the
    login page and the blocked entry is replaced by /login in the history. *)
Theorem visit_guarded_redirects (path : string) (history : list string) :
  token_present st = false → rr_matches "/loan-form" path = true →
  exec srv (visit rr_matches 2 (path :: history)) st =
  (Normal (Shown (Some Login) ("/login" :: history)), st).
Proof.
  intros Ht Hp. rewrite visit_unfold. simpl default. rewrite render_loan_form, Ht by done.
  rewrite visit_unfold. simpl default. unfold render. rewrite rr_select_login. reflexivity.
Qed.

(** C8: With a token, visiting /loan-form shows the loan form and leaves
    the history unchanged. *)
Theorem visit_guarded_allows (path : string) (history : list string) :
  token_present st = true → rr_matches "/loan-form" path = true →
  exec srv (visit rr_matches 1 (path :: history)) st =
  (Normal (Shown (Some LoanForm) (path :: history)), st).
Proof.
  intros Ht Hp. rewrite visit_unfold. simpl default. by rewrite render_loan_form, Ht.
Qed.

(** C24: Every visit settles within two renders on a page or on no match:
    the only redirect goes to the unguarded /login route. *)
Theorem visit_settles (path : string) (history : list string) :
  ∃ e history', exec srv (visit rr_matches 2 (path :: history)) st =
                (Normal (Shown e history'), st).
Proof.
  rewrite visit_unfold. simpl default. unfold render at 1.
  destruct (select rr_matches path) as [e|] eqn:Hs; [|by eexists _, _].
  apply select_route in Hs. simpl in Hs.
  repeat (apply elem_of_cons in Hs as [-> | Hs]); [by eexists _, _ .. | | set_solver].
  cbn [render_element]. rewrite !exec_bind, protectedRoute_exec.
  destruct Hrel as [-> _]. destruct (token_present st); [by eexists _, _|].
  cbn -[visit]. rewrite visit_unfold. simpl default. unfold render. rewrite rr_select_login.
  by eexists _, _.
Qed.
(** C31: Equivalence with the decision table: for every location and a
    working storage, navigating with React Router's matcher gives
    exactly the page of [app_ref] (two renders suffice), and the storage
    is unchanged. *)
Theorem visit_app_ref (path : string) (history : list string) :
  exec srv (visit rr_matches 2 (path :: history)) st =
  (Normal (app_ref path (token_present st) history), st).
Proof.
  rewrite visit_unfold. simpl default. unfold render at 1, select, app_ref.
  cbn [List.find routes fst snd]. unfold rr_matches. fold (location_key path).
  change (lowercase (strip_trailing_slashes "/")) with "".
  change (lowercase (strip_trailing_slashes "/login")) with "/login".
  change (lowercase (strip_trailing_slashes "/register")) with "/register".
  change (lowercase (strip_trailing_slashes "/loan-form")) with "/loan-form".
  cbv zeta. case_decide as Hl; [by destruct Hl as [-> | ->]|].
  rewrite !(bool_decide_false (_ = location_key path)) by naive_solver.
  case_decide as Hr; [by rewrite Hr|]. rewrite bool_decide_false by naive_solver.
  case_decide as Hf; [|by rewrite bool_decide_false by naive_solver]. rewrite Hf.
  rewrite bool_decide_true by done.
  cbn [fmap option_fmap option_map snd render_element]. rewrite !exec_bind, protectedRoute_exec.
  destruct Hrel as [-> _]. destruct (token_present st); [done|].
  cbn -[visit]. rewrite visit_unfold. reflexivity.
Qed.
End rr.

(** C19: With storage unavailable, visiting /loan-form throws the
    SecurityError instead of redirecting. *)
Theorem visit_guarded_unavailable (srv : request → http_result) (st : storage)
    (n : nat) (path : string) (history : list string) :
  available st = false → rr_matches "/loan-form" path = true →
  exec srv (visit rr_matches (S n) (path :: history)) st = (Throw SecurityError, st).
Proof.
  intros Ha Hp. rewrite visit_unfold. simpl default. unfold render.
  rewrite rr_select_loan_form by done. cbn [render_element].
  rewrite !exec_bind, protectedRoute_exec, Ha. reflexivity.
Qed.

(** ** Witnesses at concrete inputs *)

(** The only [<Navigate>] an element of the routes table renders is the
    guard's [<Navigate to="/login" replace/>]. *)
Lemma render_route_Navigate (srv : request → http_result) (st : storage) (e : element)
    (to : string) (rep : bool) :
  e ∈ routes.*2 →
  (exec srv (render_element e) st).1 = Normal (Navigate to rep) → to = "/login" ∧ rep = true.
Proof.
  intros He. simpl in He.
  repeat (apply elem_of_cons in He as [-> | He]); [done | done | done | | set_solver].
  cbn [render_element]. rewrite exec_bind, protectedRoute_exec.
  destruct (available st); [|done]. by destruct (token_present st); [|intros [= <- <-]].
Qed.

Lemma render_Navigate (matches : string → string → bool) (srv : request → http_result)
    (st : storage) (path to : string) (rep : bool) :
  (exec srv (render matches path) st).1 = Normal (Some (Navigate to rep)) →
  to = "/login" ∧ rep = true.
Proof.
  unfold render. destruct (select matches path) as [e|] eqn:Hs; [|done].
  rewrite exec_bind. destruct (exec srv (render_element e) st) as [[r|ex] st'] eqn:He; [|done].
  simpl. intros [= ->]. apply (render_route_Navigate srv st e); [by eapply select_route | by rewrite He].
Qed.

(** C29: Navigation never lengthens the browser history, under any route
    matcher and with any fuel: the guard's redirect replaces the blocked
    entry, so Back never returns to a page that redirects again. *)
Theorem visit_history_length (matches : string → string → bool) (srv : request → http_result)
    (n : nat) (history history' : list string) (st st' : storage) (e : option element) :
  history ≠ [] →
  exec srv (visit matches n history) st = (Normal (Shown e history'), st') →
  length history' = length history.
Proof.
  revert history st. induction n as [|n IH]; intros history st Hne; [done|].
  rewrite visit_unfold.
  pose proof (render_Navigate matches srv st (default "/" (head history))) as Hn.
  destruct (exec srv (render matches _) st) as [[[[| | |to rep|]|]|] st0]; try congruence.
  destruct (Hn to rep eq_refl) as [_ ->]. intros Hv.
  apply IH in Hv; [|done]. rewrite Hv. destruct history; [done|]. reflexivity.
Qed.

Lemma token_present_saved (st : storage) (t : string) (u : jsval) :
  t ≠ "" → token_present (saved st (JStr t) u) = true.
Proof. intros Ht. unfold token_present. rewrite saved_token. by destruct t. Qed.

Lemma token_present_logout (st : storage) :
  token_present (with_items st (delete "user" (delete "token" (items st)))) = false.
Proof. unfold token_present. simpl. by rewrite lookup_delete_ne, lookup_delete_eq. Qed.

(** C35: Login, guard and logout composed: after a successful login with a
    non-empty string token, visiting /loan-form shows the loan form; after
    the following logout, the same visit ends on the login page with the
    blocked entry replaced. *)
Theorem login_logout_guard (srv : request → http_result) (st : storage)
    (ps dps : list (string * jsval)) (s : Z) (t path : string) (history : list string) :
  reliable st → srv (login_request st (JObj ps)) = HttpResponse s (JObj dps) → (200 ≤ s < 300)%Z →
  field (JObj dps) "token" = JStr t → t ≠ "" → rr_matches "/loan-form" path = true →
  (exec srv (visit rr_matches 2 (path :: history)) (exec srv (loginUser (JObj ps)) st).2).1 =
    Normal (Shown (Some LoanForm) (path :: history)) ∧
  (exec srv (visit rr_matches 2 (path :: history))
     (exec srv logoutUser (exec srv (loginUser (JObj ps)) st).2).2).1 =
    Normal (Shown (Some Login) ("/login" :: history)).
Proof.
  intros Hrel Hsrv Hs Ht Hne Hp.
  rewrite (loginUser_exec_ok srv ps st Hrel s dps Hsrv Hs), Ht.
  assert (Htr : truthy (JStr t) = true) by (by destruct t). rewrite Htr. cbn [snd].
  pose proof (saved_reliable st (JStr t) (field (JObj dps) "user") Hrel) as Hrel'.
  rewrite (visit_loan_form srv _ Hrel'), token_present_saved by done. split; [done|].
  rewrite (logoutUser_clears srv _ Hrel'). cbn [snd].
  rewrite (visit_loan_form srv _ (with_items_reliable _ _ Hrel')), token_present_logout by done.
  done.
Qed.

Definition token_storage : storage := mk_storage (<["token" := "t1"]> ∅) true None.

Lemma token_storage_reliable : reliable token_storage.
Proof. split; reflexivity. Defined.

Lemma visit_LoanForm_requires_token_witness :
  (exec (λ _, NetworkError) (visit rr_matches 1 ["/loan-form"]) token_storage).1 =
    Normal (Shown (Some LoanForm) ["/loan-form"]) ∧
  token_present token_storage = true.
Proof.
  split; [reflexivity|].
  exact (visit_LoanForm_requires_token rr_matches (λ _, NetworkError) 1 ["/loan-form"]
           ["/loan-form"] token_storage eq_refl).
Defined.

Lemma visit_guarded_redirects_witness :
  exec (λ _, NetworkError) (visit rr_matches 2 ["/Loan-Form/"; "/register"]) empty_storage =
  (Normal (Shown (Some Login) ["/login"; "/register"]), empty_storage).
Proof.
  exact (visit_guarded_redirects (λ _, NetworkError) empty_storage empty_storage_reliable
           "/Loan-Form/" ["/register"] eq_refl eq_refl).
Defined.

Lemma visit_guarded_allows_witness :
  exec (λ _, NetworkError) (visit rr_matches 1 ["/loan-form/"]) token_storage =
  (Normal (Shown (Some LoanForm) ["/loan-form/"]), token_storage).
Proof.
  exact (visit_guarded_allows (λ _, NetworkError) token_storage token_storage_reliable
           "/loan-form/" [] eq_refl eq_refl).
Defined.

Lemma visit_settles_witness :
  ∃ e history', exec (λ _, NetworkError) (visit rr_matches 2 ["/loan-form"]) empty_storage =
                (Normal (Shown e history'), empty_storage).
Proof. exact (visit_settles (λ _, NetworkError) empty_storage empty_storage_reliable "/loan-form" []). Defined.

Lemma visit_guarded_unavailable_witness :
  exec (λ _, NetworkError) (visit rr_matches 1 ["/loan-form"]) (mk_storage ∅ false None) =
  (Throw SecurityError, mk_storage ∅ false None).
Proof.
  exact (visit_guarded_unavailable (λ _, NetworkError) (mk_storage ∅ false None) 0
           "/loan-form" [] eq_refl eq_refl).
Defined.

Lemma visit_history_length_witness :
  exec (λ _, NetworkError) (visit rr_matches 2 ["/loan-form"; "/register"]) empty_storage =
    (Normal (Shown (Some Login) ["/login"; "/register"]), empty_storage) ∧
  length ["/login"; "/register"] = length ["/loan-form"; "/register"].
Proof.
  split; [reflexivity|].
  exact (visit_history_length rr_matches (λ _, NetworkError) 2 ["/loan-form"; "/register"]
           ["/login"; "/register"] empty_storage empty_storage (Some Login) ltac:(done) eq_refl).
Defined.

Lemma visit_app_ref_witness :
  app_ref "/REGISTER//" false [] = Shown (Some Register) ["/REGISTER//"] ∧
  exec (λ _, NetworkError) (visit rr_matches 2 ["/REGISTER//"]) empty_storage =
  (Normal (app_ref "/REGISTER//" false []), empty_storage).
Proof.
  split; [reflexivity|].
  exact (visit_app_ref (λ _, NetworkError) empty_storage empty_storage_reliable "/REGISTER//" []).
Defined.

Lemma login_logout_guard_witness :
  (exec (λ _, NetworkError) (visit rr_matches 2 ["/loan-form"])
     (exec demo_server (loginUser (JObj demo_credentials)) empty_storage).2).1 =
    Normal (Shown (Some LoanForm) ["/loan-form"]) ∧
  (exec (λ _, NetworkError) (visit rr_matches 2 ["/loan-form"])
     (exec demo_server logoutUser (exec demo_server (loginUser (JObj demo_credentials)) empty_storage).2).2).1 =
    Normal (Shown (Some Login) ["/login"]).
Proof.
  destruct (login_logout_guard demo_server empty_storage demo_credentials demo_login_body 200 "t1"
              "/loan-form" [] empty_storage_reliable eq_refl ltac:(lia) eq_refl ltac:(done) eq_refl)
    as [H1 H2].
  split; [exact H1 | exact H2].
Defined.

End App.
