(* ===== verification/LoanService.v ===== *)
(** * [src/services/loanService.js]: loan submission and retrieval

    Three [async] functions, each one request through the API client in a
    [try]/[catch] whose clause is the same normalisation as in
    [authService.js] ([AuthService.normalize_error]) with its own fallback
    message.  None of them touches the storage; the bearer header they
    send is the one [loginUser] stored and [logoutUser] removed. *)

From S2P Require Import Prelude Js Storage Async Api AuthService.

Module LoanService.
Import Js Storage Async Api AuthService.

(** [submitLoanApplication(loanData)], lines 5-21. *)
Definition submitLoanApplication (loanData : jsval) : prog jsval :=
  p_catch
    (fullName ← prop loanData "fullName";
     mobileNumber ← prop loanData "mobileNumber";
     email ← prop loanData "email";
     loanAmount ← prop loanData "loanAmount";
     loanDurationMonths ← prop loanData "loanDurationMonths";
     loanPurpose ← prop loanData "loanPurpose";
     employmentType ← prop loanData "employmentType";
     monthlyIncome ← prop loanData "monthlyIncome";
     response ← Api.post "/loans/apply"
                  (JObj [("fullName", fullName); ("mobileNumber", mobileNumber);
                         ("email", email); ("loanAmount", loanAmount);
                         ("loanDurationMonths", loanDurationMonths);
                         ("loanPurpose", loanPurpose); ("employmentType", employmentType);
                         ("monthlyIncome", monthlyIncome)]);
     mret (data response))
    (normalize_error "Loan application submission failed").

(** [getUserLoans()], lines 24-31. *)
Definition getUserLoans : prog jsval :=
  p_catch
    (response ← Api.get "/loans/my-loans";
     mret (data response))
    (normalize_error "Failed to fetch loan applications").

(** [getLoanDetails(loanId)], lines 34-41: the path is the template
    literal [`/loans/${loanId}`]. *)
Definition getLoanDetails (loanId : jsval) : prog jsval :=
  p_catch
    (response ← Api.get ("/loans/" +:+ to_string loanId);
     mret (data response))
    (normalize_error "Failed to fetch loan details").

(** ** Lemmas *)

Definition loan_fields : list string :=
  ["fullName"; "mobileNumber"; "email"; "loanAmount"; "loanDurationMonths";
   "loanPurpose"; "employmentType"; "monthlyIncome"].

Definition submit_request (st : storage) (loanData : jsval) : request :=
  mk_request POST "/loans/apply" (auth_headers (items st !! "token"))
    (Some (JObj ((λ k, (k, field loanData k)) <$> loan_fields))).

Definition details_request (st : storage) (loanId : jsval) : request :=
  mk_request GET ("/loans/" +:+ to_string loanId) (auth_headers (items st !! "token")) None.

Lemma loan_services_read_only (loanData loanId : jsval) :
  read_only (submitLoanApplication loanData) ∧ read_only getUserLoans ∧
  read_only (getLoanDetails loanId).
Proof.
  unfold submitLoanApplication, getUserLoans, getLoanDetails, normalize_error,
    Api.post, Api.get, Api.make_request.
  split_and!; eauto 30 with loanapp.
Qed.

Section loans.
Context (srv : request → http_result) (st : storage) (Hrel : reliable st).

(** C27: submitLoanApplication sends POST /loans/apply whose body has
    exactly the eight loan fields read from its argument. *)
Lemma submitLoanApplication_sends (ps : list (string * jsval)) :
  ∃ k, run (submitLoanApplication (JObj ps)) st = (Pending (submit_request st (JObj ps)) k, st).
Proof. concrete_storage Hrel st. eexists. reflexivity. Qed.

(** C21: getLoanDetails(loanId) sends GET '/loans/' followed by
    ToString(loanId), with the stored bearer token, and changes nothing
    before the response. *)
Lemma getLoanDetails_sends (loanId : jsval) :
  ∃ k, run (getLoanDetails loanId) st = (Pending (details_request st loanId) k, st).
Proof. concrete_storage Hrel st. eexists. reflexivity. Qed.

Lemma getUserLoans_sends :
  ∃ k, run getUserLoans st =
       (Pending (mk_request GET "/loans/my-loans" (auth_headers (items st !! "token")) None) k, st).
Proof. concrete_storage Hrel st. eexists. reflexivity. Qed.
End loans.

(** C20: submitLoanApplication, getUserLoans and getLoanDetails never change
    the storage. *)
Theorem loan_services_keep_storage (srv : request → http_result) (st : storage)
    (loanData loanId : jsval) :
  (exec srv (submitLoanApplication loanData) st).2 = st ∧
  (exec srv getUserLoans st).2 = st ∧
  (exec srv (getLoanDetails loanId) st).2 = st.
Proof.
  destruct (loan_services_read_only loanData loanId) as (H1 & H2 & H3).
  split_and!; by apply exec_read_only.
Qed.

(** C28: The bearer header follows the session: after logoutUser the loan
    requests are sent without Authorization, and after a login whose token
    is the non-empty string t, with Authorization: Bearer t. *)
Theorem loan_requests_follow_session (srv : request → http_result) (st : storage)
    (ps dps : list (string * jsval)) (s : Z) (t : string) :
  reliable st →
  (∃ k, run getUserLoans (exec srv logoutUser st).2 =
        (Pending (mk_request GET "/loans/my-loans" [] None) k, (exec srv logoutUser st).2)) ∧
  (srv (login_request st (JObj ps)) = HttpResponse s (JObj dps) → (200 ≤ s < 300)%Z →
   field (JObj dps) "token" = JStr t → t ≠ "" →
   ∃ k, run getUserLoans (exec srv (loginUser (JObj ps)) st).2 =
        (Pending (mk_request GET "/loans/my-loans" [("Authorization", bearer t)] None) k,
         (exec srv (loginUser (JObj ps)) st).2)).
Proof.
  intros Hrel. split.
  - rewrite (logoutUser_clears srv st Hrel). cbn [snd].
    destruct (getUserLoans_sends _ (with_items_reliable _ (delete "user" (delete "token" (items st))) Hrel))
      as [k Hk].
    exists k. by rewrite Hk, with_items_items, lookup_delete_ne, lookup_delete_eq by done.
  - intros Hsrv Hs Ht Hne. rewrite (loginUser_exec_ok srv ps st Hrel s dps Hsrv Hs), Ht.
    destruct t as [|c t]; [done|]. cbn [truthy snd].
    destruct (getUserLoans_sends _ (saved_reliable _ (JStr (String c t)) (field (JObj dps) "user") Hrel))
      as [k Hk].
    exists k. by rewrite Hk, saved_token.
Qed.

(** C36: Nullish form data: registerUser, loginUser and
    submitLoanApplication called with null or undefined throw the
    TypeError of the first property read inside their try, so each
    rejects with its own fallback { message } at once, before any request
    is sent and with the storage unchanged. *)
Theorem nullish_input_rejected (st : storage) (v : jsval) :
  v = JUndef ∨ v = JNull →
  run (registerUser v) st = (Settled (Throw (Thrown (message_obj "Registration failed"))), st) ∧
  run (loginUser v) st = (Settled (Throw (Thrown (message_obj "Login failed"))), st) ∧
  run (submitLoanApplication v) st =
    (Settled (Throw (Thrown (message_obj "Loan application submission failed"))), st).
Proof. intros [-> | ->]; split_and!; reflexivity. Qed.

Definition demo_loan : list (string * jsval) :=
  [("fullName", JStr "A"); ("mobileNumber", JStr "9999999999"); ("email", JStr "a@b.com");
   ("loanAmount", JNum 50000); ("loanDurationMonths", JNum 12); ("loanPurpose", JStr "car");
   ("employmentType", JStr "salaried"); ("monthlyIncome", JNum 40000)].

Lemma getLoanDetails_sends_witness :
  ∃ k, run (getLoanDetails JUndef) empty_storage =
       (Pending (mk_request GET "/loans/undefined" [] None) k, empty_storage).
Proof. exact (getLoanDetails_sends empty_storage empty_storage_reliable JUndef). Defined.

Lemma submitLoanApplication_sends_witness :
  ∃ k, run (submitLoanApplication (JObj demo_loan)) empty_storage =
       (Pending (submit_request empty_storage (JObj demo_loan)) k, empty_storage).
Proof. exact (submitLoanApplication_sends empty_storage empty_storage_reliable demo_loan). Defined.

Lemma loan_requests_follow_session_witness :
  ∃ k, run getUserLoans (exec demo_server (loginUser (JObj demo_credentials)) empty_storage).2 =
       (Pending (mk_request GET "/loans/my-loans" [("Authorization", bearer "t1")] None) k,
        (exec demo_server (loginUser (JObj demo_credentials)) empty_storage).2).
Proof.
  apply (proj2 (loan_requests_follow_session demo_server empty_storage demo_credentials
                  demo_login_body 200 "t1" empty_storage_reliable));
    [reflexivity | lia | reflexivity | discriminate].
Defined.

Lemma nullish_input_rejected_witness :
  run (loginUser JNull) empty_storage =
    (Settled (Throw (Thrown (message_obj "Login failed"))), empty_storage).
Proof. exact (proj1 (proj2 (nullish_input_rejected empty_storage JNull (or_intror eq_refl)))). Defined.

End LoanService.
