(* ===== verification/ErrorContract.v ===== *)
(** * The outcome contract of the services

    [registerUser] and the three loan services send one request and
    settle with what the design promises: the response body on a 2xx
    status, otherwise a rejection with the server's error payload when it
    is truthy and the operation's own fallback [{ message }] when it is
    not (a network error, or an empty or falsy body).  [service_outcome]
    states that independently of the code; the theorem shows each service
    computes it exactly, on every answer of the network. *)

From S2P Require Import Prelude Js Storage Async Api AuthService LoanService.

Module ErrorContract.
Import Js Storage Async Api AuthService LoanService.

(** What a service with fallback message [msg] settles with, for the
    network's answer [h] to its request. *)
Definition service_outcome (msg : string) (h : http_result) : completion exn jsval :=
  match h with
  | HttpResponse s b =>
      if decide (200 ≤ s < 300)%Z then Normal b else Throw (Thrown (js_or b (message_obj msg)))
  | NetworkError => Throw (Thrown (message_obj msg))
  end.

(** The request [getUserLoans] sends. *)
Definition loans_request (st : storage) : request :=
  mk_request GET "/loans/my-loans" (auth_headers (items st !! "token")) None.

Section outcomes.
Context (srv : request → http_result) (st : storage) (Hrel : reliable st).

(** C5: registerUser (on form data that is an object) and the three loan
    services settle exactly with [service_outcome] of the network's answer
    to their request: the body on 2xx, else the truthy error payload or
    their own fallback message; the storage is unchanged. *)
Theorem services_reject_normalized (ps : list (string * jsval)) (loanId : jsval) :
  exec srv (registerUser (JObj ps)) st =
    (service_outcome "Registration failed" (srv (register_request st (JObj ps))), st) ∧
  exec srv (submitLoanApplication (JObj ps)) st =
    (service_outcome "Loan application submission failed" (srv (submit_request st (JObj ps))), st) ∧
  exec srv getUserLoans st =
    (service_outcome "Failed to fetch loan applications" (srv (loans_request st)), st) ∧
  exec srv (getLoanDetails loanId) st =
    (service_outcome "Failed to fetch loan details" (srv (details_request st loanId)), st).
Proof.
  concrete_storage Hrel st. unfold register_request, submit_request, loans_request, details_request.
  split_and!; [unfold registerUser | unfold submitLoanApplication | unfold getUserLoans
              | unfold getLoanDetails]; cbn.
  all: match goal with |- context [srv ?q] => destruct (srv q) as [|sc b] end; [reflexivity|].
  all: unfold settle, service_outcome; by case_decide.
Qed.
End outcomes.

Lemma services_reject_normalized_witness :
  exec rejecting_server getUserLoans empty_storage =
    (Throw (Thrown (JObj [("message", JStr "Invalid credentials")])), empty_storage) ∧
  exec rejecting_server getUserLoans empty_storage =
    (service_outcome "Failed to fetch loan applications" (rejecting_server (loans_request empty_storage)),
     empty_storage).
Proof.
  split; [reflexivity|].
  exact (proj1 (proj2 (proj2 (services_reject_normalized rejecting_server empty_storage
           empty_storage_reliable [] JUndef)))).
Defined.

End ErrorContract.
