(* ===== verification/Session.v ===== *)
(** * Interleaving of service calls over the shared session store

    The browser runs one event loop: each call of a service runs
    synchronously up to its [await], and the rest of it runs when the
    response is delivered, in whatever order the network delivers them.
    A [sys] is the state of that loop: the [localStorage], the calls
    waiting for a response ([tasks], each with the request it sent and
    the code after its [await]) and the settled results.  [step] is one
    event: a new call, or the delivery of a response to a waiting call.

    [Section store_relation] proves once what every step does to the
    stored items, for any relation that the writes of [loginUser] and
    the removals of [logoutUser] satisfy.  The theorems: the token and
    the profile are stored and removed together in every reachable state (when every storage access
    succeeds); and the ordering facts that follow from the code: a
    [logoutUser()] does not cancel a login in flight, and among
    concurrent logins the last response delivered wins. *)

From S2P Require Import Prelude Js Json Storage Async Api AuthService ProtectedRoute LoanService.

Module Session.
Import Js Json Storage Async Api AuthService ProtectedRoute LoanService.

(** The calls the pages make. *)
Inductive call : Type :=
  | CRegister (userData : jsval)
  | CLogin (credentials : jsval)
  | CLogout
  | CCurrentUser
  | CIsAuthenticated
  | CSubmitLoan (loanData : jsval)
  | CUserLoans
  | CLoanDetails (loanId : jsval).

Definition call_prog (c : call) : prog jsval :=
  match c with
  | CRegister d => registerUser d
  | CLogin cr => loginUser cr
  | CLogout => logoutUser;; mret JUndef
  | CCurrentUser => getCurrentUser
  | CIsAuthenticated => b ← isAuthenticated; mret (JBool b)
  | CSubmitLoan d => submitLoanApplication d
  | CUserLoans => getUserLoans
  | CLoanDetails i => getLoanDetails i
  end.

Record task : Type := mk_task {
  task_id : nat;
  task_req : request;
  task_k : completion exn response → prog jsval
}.

Record sys : Type := mk_sys {
  store : storage;
  tasks : list task;
  next_id : nat;
  results : list (nat * completion exn jsval)
}.

Definition init (st : storage) : sys := mk_sys st [] 0 [].

(** Run a synchronous segment of call [i]: it settles, or waits again. *)
Definition resume (s : sys) (i : nat) (p : prog jsval) : sys :=
  match run p (store s) with
  | (Settled o, st') => mk_sys st' (tasks s) (next_id s) ((i, o) :: results s)
  | (Pending q k, st') => mk_sys st' (tasks s ++ [mk_task i q k]) (next_id s) (results s)
  end.

Definition start (s : sys) (c : call) : sys :=
  resume (mk_sys (store s) (tasks s) (S (next_id s)) (results s)) (next_id s) (call_prog c).

Inductive step : sys → sys → Prop :=
  | step_call (s : sys) (c : call) : step s (start s c)
  | step_deliver (s : sys) (t : task) (ts1 ts2 : list task) (h : http_result) :
      tasks s = ts1 ++ t :: ts2 →
      step s (resume (mk_sys (store s) (ts1 ++ ts2) (next_id s) (results s))
                     (task_id t) (task_k t (settle h))).

Inductive reachable (st0 : storage) : sys → Prop :=
  | reach_init : reachable st0 (init st0)
  | reach_step (s s' : sys) : reachable st0 s → step s s' → reachable st0 s'.

(** ** Scripted runs *)

Inductive event : Type :=
  | Call (c : call)
  | Deliver (i : nat) (h : http_result).

Fixpoint take_task (i : nat) (ts : list task) : option (task * list task) :=
  match ts with
  | [] => None
  | t :: ts' =>
      if decide (task_id t = i) then Some (t, ts')
      else (λ '(t', r), (t', t :: r)) <$> take_task i ts'
  end.

(** Deliver [h] to call [i]; nothing happens when no call [i] waits. *)
Definition deliver (s : sys) (i : nat) (h : http_result) : sys :=
  match take_task i (tasks s) with
  | Some (t, ts) => resume (mk_sys (store s) ts (next_id s) (results s)) i (task_k t (settle h))
  | None => s
  end.

Definition play_event (s : sys) (ev : event) : sys :=
  match ev with Call c => start s c | Deliver i h => deliver s i h end.

Definition play (s : sys) (evs : list event) : sys := foldl play_event s evs.

(** ** The session invariant *)

(** Token and profile are stored together or not at all. *)
Definition paired (m : gmap string string) : Prop :=
  is_Some (m !! "token") ↔ is_Some (m !! "user").

Lemma paired_saved (m : gmap string string) (t u : string) :
  paired (<["user" := u]> (<["token" := t]> m)).
Proof.
  unfold paired. rewrite lookup_insert_eq, lookup_insert_ne, lookup_insert_eq by done.
  split; eauto.
Qed.

Lemma paired_logout (m : gmap string string) : paired (delete "user" (delete "token" m)).
Proof.
  unfold paired. rewrite lookup_delete_eq, lookup_delete_ne, lookup_delete_eq by done. done.
Qed.

Lemma run_reliable {A} (p : prog A) (st : storage) :
  reliable st → reliable (run p st).2.
Proof.
  revert st. induction p; intros st Hst; simpl; auto.
  - destruct (Storage.setItem st k v) eqn:E; auto. apply setItem_Normal in E. subst. auto with loanapp.
  - destruct (Storage.removeItem st k) eqn:E; auto. apply removeItem_Normal in E. subst. auto with loanapp.
Qed.

Lemma read_only_if {A} (b : bool) (p q : prog A) :
  read_only p → read_only q → read_only (if b then p else q).
Proof. by destruct b. Qed.

#[local] Hint Resolve read_only_if : loanapp.

Lemma normalize_error_read_only {A} (msg : string) (e : exn) :
  read_only (normalize_error (A:=A) msg e).
Proof. unfold normalize_error. eauto with loanapp. Qed.

Lemma getCurrentUser_read_only : read_only getCurrentUser.
Proof. unfold getCurrentUser. eauto with loanapp. Qed.

Lemma isAuthenticated_read_only : read_only isAuthenticated.
Proof. unfold isAuthenticated. eauto with loanapp. Qed.

#[local] Hint Resolve normalize_error_read_only getCurrentUser_read_only
  isAuthenticated_read_only registerUser_read_only : loanapp.

#[local] Arguments normalize_error : simpl never.

(** ** What a step does to the stored items

    [R m0 m] relates the stored items [m0] when a synchronous segment
    starts to the items [m] when it settles or awaits; [Pre] holds of the
    items whenever a segment starts.  [R] is reflexive (read-only code),
    holds of the two writes of [loginUser] (lines 29-30) under its
    [if (token)] guard and of the two removals of [logoutUser], and
    re-establishes [Pre].  Other code observes the store only between
    segments, so the partial states inside a segment are not constrained.
    The store invariants ([paired], [Profile.profile_ok]) and the
    abstract session steps ([Refinement.astep]) are instances. *)
Section store_relation.
Variable Pre : gmap string string → Prop.
Variable R : gmap string string → gmap string string → Prop.
Hypothesis R_refl : ∀ m, Pre m → R m m.
Hypothesis R_saved : ∀ (m : gmap string string) (t u : jsval), Pre m → truthy t = true →
  R m (<["user" := to_string (JSON_stringify u)]> (<["token" := to_string t]> m)).
Hypothesis R_logout : ∀ m : gmap string string, Pre m → R m (delete "user" (delete "token" m)).
Hypothesis R_Pre : ∀ m m', R m m' → Pre m'.

(** [seg p m0 st]: running [p] from [st], [R m0] holds of the items when
    [p] settles and at each of its [await]s; after each [await], the rest
    of [p] again satisfies [seg] from any working store satisfying [Pre]. *)
Fixpoint seg {A} (p : prog A) (m0 : gmap string string) (st : storage) : Prop :=
  match p with
  | Ret _ | Raise _ => R m0 (items st)
  | GetItem k c => seg (c (Storage.getItem st k)) m0 st
  | SetItem k v c =>
      match Storage.setItem st k v with
      | Normal st' => seg (c (Normal ())) m0 st'
      | Throw e => seg (c (Throw e)) m0 st
      end
  | RemoveItem k c =>
      match Storage.removeItem st k with
      | Normal st' => seg (c (Normal ())) m0 st'
      | Throw e => seg (c (Throw e)) m0 st
      end
  | Await _ c =>
      R m0 (items st) ∧
      ∀ r st', reliable st' → Pre (items st') → seg (c r) (items st') st'
  end.

Definition task_ok (t : task) : Prop :=
  ∀ r st, reliable st → Pre (items st) → seg (task_k t r) (items st) st.

Definition sys_ok (s : sys) : Prop :=
  reliable (store s) ∧ Pre (items (store s)) ∧ Forall task_ok (tasks s).

Lemma run_seg {A} (p : prog A) (m0 : gmap string string) (st : storage) :
  seg p m0 st →
  R m0 (items (run p st).2) ∧
  match (run p st).1 with
  | Pending _ k => ∀ r st', reliable st' → Pre (items st') → seg (k r) (items st') st'
  | Settled _ => True
  end.
Proof.
  revert st. induction p; intros st Hp; simpl in *; auto.
  all: try solve [destruct (Storage.setItem st k v); auto].
  all: destruct (Storage.removeItem st k); auto.
Qed.

Lemma read_only_seg {A} (p : prog A) (st : storage) :
  read_only p → Pre (items st) → seg p (items st) st.
Proof. revert st. induction p; intros st Hp HP; simpl in *; try done; auto. Qed.

(** The code [loginUser] runs after its [await], on any answer. *)
Lemma login_seg (credentials : jsval) (st : storage) :
  reliable st → Pre (items st) → seg (loginUser credentials) (items st) st.
Proof.
  intros Hrel Hp. concrete_storage Hrel st. unfold loginUser.
  destruct credentials; cbn; try (apply (read_only_seg _ (mk_storage _ _ _)); [apply normalize_error_read_only | done]).
  all: split; [auto|]; intros r st' Hrel' Hp'; concrete_storage Hrel' st'.
  all: destruct r as [[status d]|e]; cbn;
    [| apply (read_only_seg _ (mk_storage _ _ _)); [apply normalize_error_read_only | done]].
  all: destruct d as [| | | | | |dps]; cbn;
    try (apply (read_only_seg _ (mk_storage _ _ _)); [apply normalize_error_read_only | done]); auto.
  all: destruct (truthy _) eqn:Ht; cbn; auto.
Qed.

Lemma call_seg (c : call) (st : storage) :
  reliable st → Pre (items st) → seg (call_prog c) (items st) st.
Proof.
  intros Hrel Hp. destruct c as [d|cr| | | |d| |i]; cbn [call_prog].
  - apply read_only_seg; auto with loanapp.
  - by apply login_seg.
  - concrete_storage Hrel st. cbn. auto.
  - apply read_only_seg; auto with loanapp.
  - apply read_only_seg; [|done]. apply read_only_bind; auto with loanapp.
  - apply read_only_seg; [apply (loan_services_read_only d JUndef) | done].
  - apply read_only_seg; [apply (loan_services_read_only JUndef JUndef) | done].
  - apply read_only_seg; [apply (loan_services_read_only JUndef i) | done].
Qed.

Lemma resume_ok (s : sys) (i : nat) (p : prog jsval) :
  reliable (store s) → Forall task_ok (tasks s) → seg p (items (store s)) (store s) →
  R (items (store s)) (items (store (resume s i p))) ∧ sys_ok (resume s i p).
Proof.
  intros Hrel Hts Hp. unfold resume, sys_ok.
  pose proof (run_reliable p (store s) Hrel) as Hrel'.
  pose proof (run_seg p _ (store s) Hp) as [HR Hk].
  destruct (run p (store s)) as [[o|q k] st']; simpl in *; split_and!; eauto.
  apply Forall_app; split; [done|]. apply Forall_singleton. exact Hk.
Qed.

(** One step relates the stored items by [R] and keeps [sys_ok]. *)
Lemma step_ok (s s' : sys) :
  sys_ok s → step s s' → R (items (store s)) (items (store s')) ∧ sys_ok s'.
Proof.
  intros (Hrel & Hp & Hts) Hstep. destruct Hstep as [s c|s t ts1 ts2 h Ht].
  - apply (resume_ok (mk_sys _ _ _ _)); [done | done | by apply call_seg].
  - rewrite Ht in Hts. apply Forall_app in Hts as [H1 H2]. apply Forall_cons in H2 as [Htk H2].
    apply (resume_ok (mk_sys _ _ _ _)); simpl; [done | by apply Forall_app | by apply Htk].
Qed.

(** Every state reachable from a working store satisfying [Pre] is [sys_ok]. *)
Lemma reachable_ok (st0 : storage) (s : sys) :
  reliable st0 → Pre (items st0) → reachable st0 s → sys_ok s.
Proof.
  intros Hrel Hp Hr. induction Hr as [|s s' Hr IH Hstep]; [by split_and!|].
  exact (proj2 (step_ok s s' IH Hstep)).
Qed.
End store_relation.

(** A store invariant [I] as a relation: [I] holds of the end state. *)
Definition holds (I : gmap string string → Prop) (m0 m : gmap string string) : Prop := I m.

Lemma reachable_inv (I : gmap string string → Prop) (st0 : storage) (s : sys) :
  (∀ m t u, I m → I (<["user" := to_string (JSON_stringify u)]> (<["token" := to_string t]> m))) →
  (∀ m, I m → I (delete "user" (delete "token" m))) →
  reliable st0 → I (items st0) → reachable st0 s → reliable (store s) ∧ I (items (store s)).
Proof.
  intros Hs Hl Hrel Hp Hr.
  destruct (reachable_ok I (holds I)) with (st0 := st0) (s := s) as (? & ? & _);
    unfold holds; auto.
Qed.

Lemma paired_saved_inv (m : gmap string string) (t u : jsval) :
  paired m → paired (<["user" := to_string (JSON_stringify u)]> (<["token" := to_string t]> m)).
Proof. intros _. apply paired_saved. Qed.

Lemma paired_logout_inv (m : gmap string string) : paired m → paired (delete "user" (delete "token" m)).
Proof. intros _. apply paired_logout. Qed.

Lemma take_task_Some (i : nat) (ts rest : list task) (t : task) :
  take_task i ts = Some (t, rest) →
  ∃ ts1 ts2, ts = ts1 ++ t :: ts2 ∧ rest = ts1 ++ ts2 ∧ task_id t = i.
Proof.
  revert rest. induction ts as [|t' ts IH]; intros rest H; simpl in H; [done|].
  case_decide.
  - simplify_eq. eexists [], _. split_and!; [reflexivity | reflexivity | done].
  - apply fmap_Some in H as ([t'' r] & H & Heq). simplify_eq.
    destruct (IH r H) as (ts1 & ts2 & -> & -> & Hid).
    by exists (t' :: ts1), ts2.
Qed.

Lemma play_event_reachable (st0 : storage) (s : sys) (ev : event) :
  reachable st0 s → reachable st0 (play_event s ev).
Proof.
  intros Hr. destruct ev as [c|i h]; simpl.
  - eapply reach_step; [done | constructor].
  - unfold deliver. destruct (take_task i (tasks s)) as [[t rest]|] eqn:E; [|done].
    destruct (take_task_Some _ _ _ _ E) as (ts1 & ts2 & Hts & -> & <-).
    eapply reach_step; [done | by econstructor].
Qed.

Lemma play_reachable (st0 : storage) (s : sys) (evs : list event) :
  reachable st0 s → reachable st0 (play s evs).
Proof.
  revert s. induction evs as [|ev evs IH]; intros s Hr; simpl; [done|].
  apply IH, play_event_reachable, Hr.
Qed.

(** ** Orderings *)

Section orderings.
Context (st : storage) (Hrel : reliable st) (ps : list (string * jsval)).

(** C22: A logoutUser() made while a login waits for its response does not
    cancel it: when the 2xx response with a token arrives the session is
    stored again. *)
Theorem logout_does_not_cancel_login (s : Z) (dps : list (string * jsval)) :
  (200 ≤ s < 300)%Z → truthy (field (JObj dps) "token") = true →
  store (play (init st) [Call (CLogin (JObj ps)); Call CLogout;
                         Deliver 0 (HttpResponse s (JObj dps))]) =
  saved (with_items st (delete "user" (delete "token" (items st))))
        (field (JObj dps) "token") (field (JObj dps) "user").
Proof.
  intros Hs Ht. concrete_storage Hrel st. cbn. unfold deliver, settle. cbn.
  rewrite !decide_True by done. unfold resume. cbn.
  unfold field in Ht. rewrite Ht. reflexivity.
Qed.

(** C23: Of two logins in flight, with any credentials, the response
    delivered last determines the stored session, whether it answers the
    first or the second call: a slower earlier login overwrites a later
    one, and the other way round. *)
Theorem last_delivered_login_wins (ps' : list (string * jsval)) (s1 s2 : Z)
    (d1 d2 : list (string * jsval)) :
  (200 ≤ s1 < 300)%Z → (200 ≤ s2 < 300)%Z →
  truthy (field (JObj d1) "token") = true → truthy (field (JObj d2) "token") = true →
  store (play (init st) [Call (CLogin (JObj ps)); Call (CLogin (JObj ps'));
                         Deliver 1 (HttpResponse s2 (JObj d2));
                         Deliver 0 (HttpResponse s1 (JObj d1))]) =
  saved (saved st (field (JObj d2) "token") (field (JObj d2) "user"))
        (field (JObj d1) "token") (field (JObj d1) "user") ∧
  store (play (init st) [Call (CLogin (JObj ps)); Call (CLogin (JObj ps'));
                         Deliver 0 (HttpResponse s1 (JObj d1));
                         Deliver 1 (HttpResponse s2 (JObj d2))]) =
  saved (saved st (field (JObj d1) "token") (field (JObj d1) "user"))
        (field (JObj d2) "token") (field (JObj d2) "user").
Proof.
  intros Hs1 Hs2 Ht1 Ht2. concrete_storage Hrel st. unfold field in Ht1, Ht2.
  split; cbn; unfold deliver, settle, resume.
  all: repeat (cbn; first [rewrite decide_True by done | rewrite decide_False by done
                          | rewrite Ht1 | rewrite Ht2]).
  all: reflexivity.
Qed.
End orderings.

(** C10: In every state reachable by interleaved calls and responses from a
    paired store, the token and user keys are both present or both absent,
    when every storage access succeeds. *)
Theorem reachable_session_paired (st0 : storage) (s : sys) :
  reliable st0 → paired (items st0) → reachable st0 s → paired (items (store s)).
Proof.
  intros Hrel Hp Hr.
  by destruct (reachable_inv paired st0 s paired_saved_inv paired_logout_inv Hrel Hp Hr).
Qed.

(** ** The session-store contract

    What the design asks of the session store (save, clear, read,
    presence), as an interface with its laws, for the stores that satisfy
    [ss_valid].  The route guard is a client of [ss_present] only. *)

Class SessionStore (S : Type) := {
  ss_valid : S → Prop;
  ss_save : S → string → jsval → S;
  ss_clear : S → S;
  ss_read : S → completion exn jsval;
  ss_present : S → bool
}.

Class SessionStoreLaws (S : Type) `{!SessionStore S} : Prop := {
  ss_save_valid s t u : ss_valid s → ss_valid (ss_save s t u);
  ss_clear_valid s : ss_valid s → ss_valid (ss_clear s);
  ss_read_save s t u : ss_valid s → is_json u = true → ss_read (ss_save s t u) = Normal u;
  ss_present_save s t u : ss_valid s → t ≠ "" → ss_present (ss_save s t u) = true;
  ss_read_clear s : ss_valid s → ss_read (ss_clear s) = Normal JNull;
  ss_present_clear s : ss_valid s → ss_present (ss_clear s) = false;
  ss_clear_idemp s : ss_valid s → ss_clear (ss_clear s) = ss_clear s
}.

(** The route guard's decision against the interface. *)
Definition guard {S} `{!SessionStore S} (s : S) (children : element) : element :=
  if ss_present s then children else Navigate "/login" true.

Section guard_client.
Context {S : Type} `{!SessionStore S} `{!SessionStoreLaws S}.

Lemma guard_after_clear (s : S) (children : element) :
  ss_valid s → guard (ss_clear s) children = Navigate "/login" true.
Proof. intros Hv. unfold guard. by rewrite ss_present_clear. Qed.

Lemma guard_after_save (s : S) (t : string) (u : jsval) (children : element) :
  ss_valid s → t ≠ "" → guard (ss_save s t u) children = children.
Proof. intros Hv Ht. unfold guard. by rewrite ss_present_save. Qed.
End guard_client.

(** The implementation: [localStorage], written by the statements of
    [loginUser] (lines 29-30) and [logoutUser], read by [getCurrentUser]
    and [isAuthenticated]. *)
Definition no_network : request → http_result := λ _, NetworkError.

#[export] Instance localStorage_session : SessionStore storage := {
  ss_valid := reliable;
  ss_save st t u := saved st (JStr t) u;
  ss_clear st := (exec no_network logoutUser st).2;
  ss_read st := (exec no_network getCurrentUser st).1;
  ss_present st := match (exec no_network isAuthenticated st).1 with
                   | Normal b => b | Throw _ => false end
}.

Lemma decision_guard (st : storage) (children : element) :
  reliable st → decision st children = guard st children.
Proof.
  intros Hrel. unfold decision, guard, ss_present, localStorage_session.
  by rewrite isAuthenticated_reads.
Qed.

(** localStorage, written as [loginUser] writes it and read and cleared by
    [getCurrentUser], [isAuthenticated] and [logoutUser], satisfies the
    session-store laws the guard's client lemmas rely on. *)
Lemma localStorage_session_laws : SessionStoreLaws storage.
Proof.
  split; unfold ss_valid, ss_save, ss_clear, ss_read, ss_present, localStorage_session.
  - intros st t u. apply saved_reliable.
  - intros st Hrel. rewrite logoutUser_clears by done. auto with loanapp.
  - intros st t u Hrel Hj. by rewrite getCurrentUser_saved.
  - intros st t u Hrel Ht. rewrite isAuthenticated_saved by done. by destruct t.
  - intros st Hrel. rewrite logoutUser_clears by done. cbn [fst snd].
    rewrite getCurrentUser_reads by auto with loanapp. by rewrite (proj2 (logout_absent st)).
  - intros st Hrel. rewrite logoutUser_clears by done. cbn [fst snd].
    rewrite isAuthenticated_reads by auto with loanapp. by rewrite (proj1 (logout_absent st)).
  - intros st Hrel. by rewrite logout_twice.
Qed.

(** ** Witnesses at concrete inputs *)

Definition demo_ok (t : string) : http_result :=
  HttpResponse 200 (JObj [("token", JStr t); ("user", demo_user)]).

Lemma reachable_session_paired_witness :
  paired (items (store (play (init empty_storage)
     [Call (CLogin (JObj demo_credentials)); Call CLogout; Deliver 0 (demo_ok "t1")]))).
Proof.
  apply (reachable_session_paired empty_storage); [exact empty_storage_reliable | done |].
  apply play_reachable, reach_init.
Defined.

Lemma logout_does_not_cancel_login_witness :
  store (play (init empty_storage) [Call (CLogin (JObj demo_credentials)); Call CLogout;
                                    Deliver 0 (demo_ok "t1")]) =
  saved (with_items empty_storage ∅) (JStr "t1") demo_user.
Proof.
  exact (logout_does_not_cancel_login empty_storage empty_storage_reliable demo_credentials 200
           [("token", JStr "t1"); ("user", demo_user)] ltac:(lia) eq_refl).
Defined.

Lemma last_delivered_login_wins_witness :
  store (play (init empty_storage) [Call (CLogin (JObj demo_credentials));
                                    Call (CLogin (JObj [("email", JStr "b@c.com")]));
                                    Deliver 1 (demo_ok "t2"); Deliver 0 (demo_ok "t1")]) =
  saved (saved empty_storage (JStr "t2") demo_user) (JStr "t1") demo_user.
Proof.
  exact (proj1 (last_delivered_login_wins empty_storage empty_storage_reliable demo_credentials
           [("email", JStr "b@c.com")] 200 200
           [("token", JStr "t1"); ("user", demo_user)] [("token", JStr "t2"); ("user", demo_user)]
           ltac:(lia) ltac:(lia) eq_refl eq_refl)).
Defined.

End Session.
