(* ===== verification/Progress.v ===== *)
(** * Progress of the event loop: every waiting call settles

    Each service [await]s at most one request ([single_await]): after the
    response of [api.post] or [api.get] arrives, the rest of the function
    only reads or writes the storage and returns or throws.  So in every
    reachable state of [Session.sys], every waiting call's continuation
    settles at once when its response is delivered, and delivering a
    response to each waiting call, in any backend's answers, empties the
    set of waiting calls and records a result for each of them. *)

From S2P Require Import Prelude Js Storage Async Api AuthService LoanService Session.

Module Progress.
Import Js Storage Async Api AuthService LoanService Session.

(** [p] awaits at most once, and nothing after its [await] awaits. *)
Fixpoint single_await {A} (p : prog A) : Prop :=
  match p with
  | Ret _ | Raise _ => True
  | GetItem _ c => ∀ r, single_await (c r)
  | SetItem _ _ c => ∀ r, single_await (c r)
  | RemoveItem _ c => ∀ r, single_await (c r)
  | Await _ c => ∀ r, no_await (c r)
  end.

(** The continuations of the waiting calls all settle without awaiting. *)
Definition waiting_inv (s : sys) : Prop :=
  Forall (λ t, ∀ r, no_await (task_k t r)) (tasks s).

(** Deliver to each waiting call, in order, the backend's answer. *)
Definition deliver_all (srv : request → http_result) (s : sys) : list event :=
  map (λ t, Deliver (task_id t) (srv (task_req t))) (tasks s).

(** ** Composition lemmas *)

Lemma no_await_single_await {A} (p : prog A) : no_await p → single_await p.
Proof. induction p; simpl; naive_solver. Qed.

Lemma no_await_bind {A B} (p : prog A) (f : A → prog B) :
  no_await p → (∀ a, no_await (f a)) → no_await (p ≫= f).
Proof. induction p; simpl; auto. Qed.

Lemma single_await_bind_l {A B} (p : prog A) (f : A → prog B) :
  single_await p → (∀ a, no_await (f a)) → single_await (p ≫= f).
Proof.
  induction p; simpl; auto using no_await_single_await.
  intros Hc Hf r. by apply no_await_bind.
Qed.

Lemma single_await_bind_r {A B} (p : prog A) (f : A → prog B) :
  no_await p → (∀ a, single_await (f a)) → single_await (p ≫= f).
Proof. induction p; simpl; naive_solver. Qed.

Lemma no_await_catch {A} (p : prog A) (h : exn → prog A) :
  no_await p → (∀ e, no_await (h e)) → no_await (p_catch p h).
Proof. induction p; simpl; auto. Qed.

Lemma single_await_catch {A} (p : prog A) (h : exn → prog A) :
  single_await p → (∀ e, no_await (h e)) → single_await (p_catch p h).
Proof.
  induction p; simpl; auto using no_await_single_await.
  intros Hc Hh r. by apply no_await_catch.
Qed.

Lemma no_await_of_completion {A} (c : completion exn A) : no_await (of_completion c).
Proof. by destruct c. Qed.

Lemma no_await_ret {A} (a : A) : no_await (mret a).
Proof. done. Qed.

Lemma no_await_raise {A} (e : exn) : no_await (Raise (A:=A) e).
Proof. done. Qed.

Lemma no_await_getItem (k : string) : no_await (getItem k).
Proof. intros r. apply no_await_of_completion. Qed.

Lemma no_await_setItem (k : string) (v : jsval) : no_await (setItem k v).
Proof. intros r. apply no_await_of_completion. Qed.

Lemma no_await_removeItem (k : string) : no_await (removeItem k).
Proof. intros r. apply no_await_of_completion. Qed.

Lemma no_await_prop (v : jsval) (k : string) : no_await (prop v k).
Proof. apply no_await_of_completion. Qed.

Lemma no_await_if {A} (b : bool) (p q : prog A) :
  no_await p → no_await q → no_await (if b then p else q).
Proof. by destruct b. Qed.

Lemma single_await_await (q : request) : single_await (await q).
Proof. intros r. apply no_await_of_completion. Qed.

Create HintDb progress discriminated.
#[export] Hint Resolve no_await_bind single_await_bind_l single_await_bind_r no_await_catch
  single_await_catch no_await_of_completion no_await_ret no_await_raise no_await_getItem
  no_await_setItem no_await_removeItem no_await_prop no_await_if single_await_await
  no_await_single_await : progress.

Lemma normalize_error_no_await {A} (msg : string) (e : exn) :
  no_await (normalize_error (A:=A) msg e).
Proof. unfold normalize_error. eauto with progress. Qed.

Lemma make_request_no_await (m : method) (url : string) (body : option jsval) :
  no_await (make_request m url body).
Proof. unfold make_request. eauto with progress. Qed.

Lemma post_single_await (url : string) (body : jsval) : single_await (post url body).
Proof. unfold post. apply single_await_bind_r; [apply make_request_no_await | eauto with progress]. Qed.

Lemma get_single_await (url : string) : single_await (get url).
Proof. unfold get. apply single_await_bind_r; [apply make_request_no_await | eauto with progress]. Qed.

#[export] Hint Resolve normalize_error_no_await post_single_await get_single_await : progress.

(** Every call of a page awaits at most once. *)
Lemma call_single_await (c : call) : single_await (call_prog c).
Proof.
  destruct c; cbn [call_prog].
  - unfold registerUser. eauto 20 with progress.
  - unfold loginUser. eauto 20 with progress.
  - unfold logoutUser. eauto with progress.
  - unfold getCurrentUser. apply no_await_single_await, no_await_bind; [eauto with progress|].
    intros u. cbv zeta. eauto with progress.
  - unfold isAuthenticated. eauto with progress.
  - unfold submitLoanApplication. eauto 20 with progress.
  - unfold getUserLoans. eauto 20 with progress.
  - unfold getLoanDetails. eauto 20 with progress.
Qed.

(** ** The waiting calls' continuations *)

Lemma run_no_await {A} (p : prog A) (st : storage) :
  no_await p → ∃ o, (run p st).1 = Settled o.
Proof.
  revert st. induction p; intros st Hp; simpl in *; try done; try case_match; eauto.
Qed.

Lemma run_single_await {A} (p : prog A) (st : storage) :
  single_await p →
  match (run p st).1 with Pending _ k => ∀ r, no_await (k r) | Settled _ => True end.
Proof.
  revert st. induction p as [| |k c IH|k v c IH|k c IH|q c]; intros st Hp; simpl in *; auto.
  - apply IH, Hp.
  - destruct (Storage.setItem st k v); apply IH, Hp.
  - destruct (Storage.removeItem st k); apply IH, Hp.
Qed.

Lemma resume_waiting (s : sys) (i : nat) (p : prog jsval) :
  waiting_inv s → single_await p → waiting_inv (resume s i p).
Proof.
  unfold waiting_inv, resume. intros Hts Hp.
  pose proof (run_single_await p (store s) Hp) as Hk.
  destruct (run p (store s)) as [[o|q k] st']; simpl in *; [done|].
  apply Forall_app; split; [done|]. by apply Forall_singleton.
Qed.

Lemma step_waiting (s s' : sys) : waiting_inv s → step s s' → waiting_inv s'.
Proof.
  intros Hts Hstep. destruct Hstep as [s c|s t ts1 ts2 h Ht].
  - apply resume_waiting; [done | apply call_single_await].
  - unfold waiting_inv in Hts. rewrite Ht in Hts.
    apply Forall_app in Hts as [H1 H2]. apply Forall_cons in H2 as [Htk H2].
    apply resume_waiting; [by apply Forall_app | by apply no_await_single_await].
Qed.

Lemma reachable_waiting (st0 : storage) (s : sys) : reachable st0 s → waiting_inv s.
Proof.
  induction 1 as [|s s' _ IH Hstep]; [constructor | by eapply step_waiting].
Qed.

(** Delivering to the first waiting call settles it and removes it. *)
Lemma deliver_head (s : sys) (t : task) (rest : list task) (h : http_result) :
  tasks s = t :: rest → (∀ r, no_await (task_k t r)) →
  ∃ st' o, deliver s (task_id t) h = mk_sys st' rest (next_id s) ((task_id t, o) :: results s).
Proof.
  intros Ht Hk. unfold deliver. rewrite Ht. cbn [take_task]. rewrite decide_True by done.
  unfold resume. simpl.
  destruct (run_no_await (task_k t (settle h)) (store s) (Hk _)) as [o Ho].
  destruct (run (task_k t (settle h)) (store s)) as [r st']. simpl in Ho. subst r. eauto.
Qed.

Lemma play_deliver_all (srv : request → http_result) (s : sys) :
  waiting_inv s →
  tasks (play s (deliver_all srv s)) = [] ∧
  (∀ t, t ∈ tasks s → ∃ o, (task_id t, o) ∈ results (play s (deliver_all srv s))) ∧
  results s ⊆ results (play s (deliver_all srv s)).
Proof.
  unfold deliver_all. remember (tasks s) as ts eqn:Hts. revert s Hts.
  induction ts as [|t ts IH]; intros s Hts Hw.
  { cbn [map play foldl]. rewrite <- Hts. split_and!; [done | set_solver | done]. }
  unfold waiting_inv in Hw. rewrite <- Hts in Hw. apply Forall_cons in Hw as [Hk Hw].
  destruct (deliver_head s t ts (srv (task_req t)) (eq_sym Hts) Hk) as (st' & o & Hd).
  cbn [map play foldl play_event]. rewrite Hd.
  destruct (IH (mk_sys st' ts (next_id s) ((task_id t, o) :: results s)) eq_refl Hw)
    as (Hnil & Hres & Hsub).
  split_and!; [done| |].
  - intros t' [-> | Ht']%elem_of_cons; [|by apply Hres].
    exists o. apply Hsub. simpl. set_solver.
  - intros x Hx. apply Hsub. simpl. set_solver.
Qed.

(** C30: Liveness of the calls in flight: from every reachable state,
    delivering to each waiting call the backend's answer (whatever the
    backend answers) reaches a reachable state where no call waits, and
    every call that was waiting has settled with a recorded result. *)
Theorem pending_calls_settle (st0 : storage) (srv : request → http_result) (s : sys) :
  reachable st0 s →
  reachable st0 (play s (deliver_all srv s)) ∧
  tasks (play s (deliver_all srv s)) = [] ∧
  ∀ t, t ∈ tasks s → ∃ o, (task_id t, o) ∈ results (play s (deliver_all srv s)).
Proof.
  intros Hr. destruct (play_deliver_all srv s (reachable_waiting _ _ Hr)) as (Hnil & Hres & _).
  split_and!; [by apply play_reachable | done | done].
Qed.

(** A login and a loan listing in flight at the same time. *)
Definition demo_busy : sys :=
  play (init empty_storage) [Call (CLogin (JObj demo_credentials)); Call CUserLoans].

Lemma pending_calls_settle_witness :
  length (tasks demo_busy) = 2 ∧
  tasks (play demo_busy (deliver_all demo_server demo_busy)) = [] ∧
  reachable empty_storage (play demo_busy (deliver_all demo_server demo_busy)).
Proof.
  assert (Hr : reachable empty_storage demo_busy) by apply play_reachable, reach_init.
  split_and!; [reflexivity | apply (pending_calls_settle empty_storage demo_server demo_busy Hr)
              | apply (pending_calls_settle empty_storage demo_server demo_busy Hr)].
Defined.

End Progress.
