(* ===== verification/Profile.v ===== *)
(** * The stored profile is always readable, or the string "undefined"

    [loginUser] stores [JSON.stringify(response.data.user)] under
    ["user"]; [getCurrentUser] reads it back with [JSON.parse].  By the
    round trip of every value ([Json.stringify_parse_text]) the stored
    text always parses to a JSON value, except when the response had no
    [user]: [JSON.stringify(undefined)] is [undefined], stored as the
    string ["undefined"].  [profile_ok] is that typing of the store; it
    is an instance of [Session]'s store relation ([reachable_inv]), so it holds in every
    state reachable by interleaved calls. *)

From S2P Require Import Prelude Js Json Storage Async Api AuthService Session.

Module Profile.
Import Js Json Storage Async Api AuthService Session.

(** The text under ["user"], if any, is JSON or the string "undefined". *)
Definition profile_ok (m : gmap string string) : Prop :=
  ∀ u, m !! "user" = Some u →
  u = "undefined" ∨ ∃ w, JSON_parse u = Normal w ∧ is_json w = true.

Lemma profile_ok_saved (m : gmap string string) (t u : jsval) :
  profile_ok m → profile_ok (<["user" := to_string (JSON_stringify u)]> (<["token" := to_string t]> m)).
Proof.
  intros _ x. rewrite lookup_insert_eq. intros [= <-]. unfold JSON_stringify.
  destruct (stringify u) as [s|] eqn:Hs; [right | by left].
  destruct (stringify_parse_text u s Hs) as (w & _ & Hp & Hj). eauto.
Qed.

Lemma profile_ok_logout (m : gmap string string) :
  profile_ok m → profile_ok (delete "user" (delete "token" m)).
Proof. intros _ x. by rewrite lookup_delete_eq. Qed.

Lemma profile_ok_empty : profile_ok ∅.
Proof. intros x. by rewrite lookup_empty. Qed.

(** C32: Type of the profile read back: in every state reachable from a
    working store whose profile is readable, getCurrentUser returns a
    JSON value (null when no profile is stored), unless the stored
    profile is the string "undefined" a login without user left. *)
Theorem getCurrentUser_typed (st0 : storage) (srv : request → http_result) (s : sys) :
  reliable st0 → profile_ok (items st0) → reachable st0 s →
  (∃ w, (exec srv getCurrentUser (store s)).1 = Normal w ∧ is_json w = true) ∨
  items (store s) !! "user" = Some "undefined".
Proof.
  intros Hrel Hp Hr.
  destruct (reachable_inv profile_ok st0 s profile_ok_saved profile_ok_logout Hrel Hp Hr)
    as (Hrel' & Hp').
  rewrite getCurrentUser_reads by done. cbn [fst]. cbv zeta.
  destruct (items (store s) !! "user") as [u|] eqn:Hu; [|left; by exists JNull].
  destruct (Hp' u Hu) as [-> | (w & Hw & Hj)]; [by right|].
  destruct u as [|c u]; [left; by exists JNull|]. left. exists w. by rewrite <- Hw.
Qed.

Lemma getCurrentUser_typed_witness :
  let s := play (init empty_storage) [Call (CLogin (JObj demo_credentials)); Deliver 0 (demo_ok "t1")] in
  (exec demo_server getCurrentUser (store s)).1 = Normal demo_user ∧
  ((∃ w, (exec demo_server getCurrentUser (store s)).1 = Normal w ∧ is_json w = true) ∨
   items (store s) !! "user" = Some "undefined").
Proof.
  split; [reflexivity|].
  apply (getCurrentUser_typed empty_storage demo_server); [exact empty_storage_reliable | exact profile_ok_empty |].
  apply play_reachable, reach_init.
Defined.

End Profile.
