(* ===== verification/Refinement.v ===== *)
(** * The interleaved calls refine the abstract session store

    The design describes the session store as an abstract state, a
    token and a profile, changed only by [save(token, user)], which sets
    both, and [clear()], which removes both.  [session_of] reads that
    state off the stored items (the two keys, each present or not);
    [astep] is the abstract machine: stay, save or clear.  Every step of
    [Session.step] (a call's synchronous segment, or the segment that
    runs when a response arrives) moves the abstract state by one
    [astep], on a working storage: the partial states of [loginUser]
    between its two writes, and of [logoutUser] between its two
    removals, are never observed.  The proof is [Session]'s segment
    relation instantiated with [session_step]. *)

From S2P Require Import Prelude Js Json Storage Async Api AuthService LoanService Session.

Module Refinement.
Import Js Json Storage Async Api AuthService LoanService Session.

(** The abstract session: the stored token and the stored profile. *)
Definition session_of (m : gmap string string) : option string * option string :=
  (m !! "token", m !! "user").

(** The abstract session store's transitions. *)
Inductive astep : option string * option string → option string * option string → Prop :=
  | astep_stay (a : option string * option string) : astep a a
  | astep_save (a : option string * option string) (t u : jsval) :
      truthy t = true → astep a (Some (to_string t), Some (to_string (JSON_stringify u)))
  | astep_clear (a : option string * option string) : astep a (None, None).

#[export] Hint Constructors astep : loanapp.

(** The abstract transition, read off the stored items. *)
Definition session_step (m m' : gmap string string) : Prop :=
  astep (session_of m) (session_of m').

Lemma session_step_refl (m : gmap string string) : True → session_step m m.
Proof. intros _. constructor. Qed.

Lemma session_step_saved (m : gmap string string) (t u : jsval) :
  True → truthy t = true →
  session_step m (<["user" := to_string (JSON_stringify u)]> (<["token" := to_string t]> m)).
Proof.
  intros _ Ht. unfold session_step, session_of.
  rewrite lookup_insert_ne, !lookup_insert_eq by done. by constructor.
Qed.

Lemma session_step_logout (m : gmap string string) :
  True → session_step m (delete "user" (delete "token" m)).
Proof.
  intros _. unfold session_step, session_of.
  rewrite lookup_delete_ne, !lookup_delete_eq by done. constructor.
Qed.

Lemma session_step_Pre (m m' : gmap string string) : session_step m m' → True.
Proof. done. Qed.

(** A delivery to a waiting call is a step. *)
Lemma deliver_step (s : sys) (i : nat) (h : http_result) (t : task) (rest : list task) :
  take_task i (tasks s) = Some (t, rest) → step s (deliver s i h).
Proof.
  intros E. destruct (take_task_Some _ _ _ _ E) as (ts1 & ts2 & Hts & -> & <-).
  unfold deliver. rewrite E. by econstructor.
Qed.

(** C33: Refinement of the abstract session store: in every state
    reachable by interleaved calls from a working store, each step changes
    the stored (token, profile) pair by one abstract transition: it stays,
    both are saved (a truthy token and a stringified profile), or both
    are cleared. *)
Theorem session_refines (st0 : storage) (s s' : sys) :
  reliable st0 → reachable st0 s → step s s' →
  astep (session_of (items (store s))) (session_of (items (store s'))).
Proof.
  intros Hrel Hr Hstep.
  pose proof (reachable_ok (λ _, True) session_step session_step_refl session_step_saved
                session_step_logout session_step_Pre st0 s Hrel I Hr) as Hs.
  exact (proj1 (step_ok _ _ session_step_refl session_step_saved session_step_logout
                  session_step_Pre s s' Hs Hstep)).
Qed.

Lemma session_refines_witness :
  let s := play (init empty_storage) [Call (CLogin (JObj demo_credentials))] in
  session_of (items (store (deliver s 0 (demo_ok "t1")))) =
    (Some "t1", Some (to_string (JSON_stringify demo_user))) ∧
  astep (session_of (items (store s))) (session_of (items (store (deliver s 0 (demo_ok "t1"))))).
Proof.
  split; [reflexivity|].
  apply (session_refines empty_storage); [exact empty_storage_reliable | apply play_reachable, reach_init |].
  eapply deliver_step. reflexivity.
Defined.

End Refinement.
